(** * fix-connection-profile.py: the connection-profile patcher

    A shallow embedding of [BAF2/v3/scripts/fix-connection-profile.py].
    The script copies a Hyperledger Fabric connection profile to a backup,
    loads it as JSON, sets two fixed key paths, rewrites every certificate
    held under a key [pem] to one line, and dumps the document to the
    output path.

    Layout of the development:
    - [Str]: the Python [str] operations the script calls;
    - the JSON value tree, Python's subscript read and write on it;
    - the three edits and their sequence [patch];
    - the files the script touches and the whole run;
    - the theorems. *)

From Stdlib Require Import ZArith NArith Ascii String.
From stdpp Require Import base tactics option list strings gmap.

Local Open Scope list_scope.

(** ** Python strings

    A Python [str] is a sequence of Unicode code points; a code point is a
    natural number.  Literals of the script are ASCII and are written with
    [lit]. *)

Abbreviation char := N (only parsing).
Abbreviation str := (list N) (only parsing).

Definition lit (s : string) : str := N_of_ascii <$> list_ascii_of_string s.

Module Str.

(** The characters [str.strip()] removes: those for which CPython's
    [Py_UNICODE_ISSPACE] holds. *)
Definition is_space (c : char) : bool :=
  ((9 <=? c) && (c <=? 13)            (* \t \n \v \f \r *)
   || (28 <=? c) && (c <=? 32)        (* FS GS RS US and the space *)
   || (c =? 133) || (c =? 160)        (* NEL, no-break space *)
   || (c =? 5760)
   || (8192 <=? c) && (c <=? 8202)
   || (c =? 8232) || (c =? 8233) || (c =? 8239) || (c =? 8287)
   || (c =? 12288))%N.

Fixpoint lstrip (s : str) : str :=
  match s with
  | c :: s' => if is_space c then lstrip s' else s
  | [] => []
  end.

Definition rstrip (s : str) : str := reverse (lstrip (reverse s)).

(** [s.strip()]: the leading run of whitespace goes, then the trailing one. *)
Definition strip (s : str) : str := rstrip (lstrip s).

(** [s.split(sep)] for a separator of one character: the pieces between
    the separators, in order; never the empty list. *)
Fixpoint split (sep : char) (s : str) : list str :=
  match s with
  | [] => [[]]
  | c :: s' =>
      if bool_decide (c = sep) then [] :: split sep s'
      else match split sep s' with
           | piece :: pieces => (c :: piece) :: pieces
           | [] => [[c]]
           end
  end.

(** [sep.join(pieces)]. *)
Fixpoint join (sep : str) (pieces : list str) : str :=
  match pieces with
  | [] => []
  | piece :: rest =>
      match rest with
      | [] => piece
      | _ :: _ => piece ++ sep ++ join sep rest
      end
  end.

Fixpoint startswith (prefix s : str) : bool :=
  match prefix, s with
  | [], _ => true
  | a :: prefix', b :: s' => bool_decide (a = b) && startswith prefix' s'
  | _ :: _, [] => false
  end.

(** [needle in s]: [needle] occurs in [s] as a contiguous run. *)
Fixpoint contains (needle s : str) : bool :=
  startswith needle s
  || match s with
     | [] => false
     | _ :: s' => contains needle s'
     end.

(** Every occurrence of the character [c] replaced by the string [by]:
    the reading of "newlines replaced by backslash-n" that [join] and
    [split] are compared with below. *)
Definition replace_char (c : char) (by_ : str) (s : str) : str :=
  s ≫= (fun x => if bool_decide (x = c) then by_ else [x]).

(** A string is trimmed when neither of its ends is whitespace. *)
Definition trimmed (s : str) : Prop :=
  lstrip s = s /\ lstrip (reverse s) = reverse s.

End Str.

(** The constants of the script. *)
Definition NL : char := 10%N.                          (* '\n' *)
Definition ESCAPED_NL : str := [92%N; 110%N].          (* '\\n': a backslash, then n *)
Definition BEGIN_CERTIFICATE : str := lit "-----BEGIN CERTIFICATE-----".

(** ** JSON values

    What [json.loads] returns: [None], [bool], [int], [float], [str], [list]
    and [dict].  The script never computes with a number, so a float is kept
    as its IEEE-754 bit pattern.  A [dict] keeps its keys in insertion order
    and holds each key once; here it is the list of its items, and [wf]
    says that the keys of every dict are distinct.

    [json.loads] builds a tree: no object is reached by two paths, and the
    dict the script stores under [discover] is a new one.  So an update in
    place of an object is an update of the tree at the place of the
    object, and the functions below return the updated tree. *)

#[warnings="-register-all"]
Inductive json : Type :=
| JNull
| JBool (b : bool)
| JInt (z : Z)
| JFloat (bits : N)
| JStr (s : str)
| JList (items : list json)
| JDict (items : list (str * json)).

Abbreviation dict := (list (str * json)) (only parsing).

(** [d.get(key)]. *)
Fixpoint dict_get (key : str) (d : dict) : option json :=
  match d with
  | [] => None
  | (k, v) :: d' => if bool_decide (k = key) then Some v else dict_get key d'
  end.

(** [d[key] = value]: an existing key keeps its place and takes the new
    value, a new key goes to the end. *)
Fixpoint dict_set (key : str) (value : json) (d : dict) : dict :=
  match d with
  | [] => [(key, value)]
  | (k, v) :: d' =>
      if bool_decide (k = key) then (k, value) :: d'
      else (k, v) :: dict_set key value d'
  end.

Fixpoint wf (v : json) : bool :=
  match v with
  | JDict items =>
      bool_decide (NoDup items.*1) && forallb (fun kv => wf kv.2) items
  | JList items => forallb wf items
  | _ => true
  end.

Definition is_container (v : json) : bool :=
  match v with
  | JDict _ | JList _ => true
  | _ => false
  end.

(** Induction over a document with the hypothesis for every element of a
    list and every value of a dict. *)
Section json_induction.
Variable P : json -> Prop.
Hypothesis HNull : P JNull.
Hypothesis HBool : forall b, P (JBool b).
Hypothesis HInt : forall z, P (JInt z).
Hypothesis HFloat : forall bits, P (JFloat bits).
Hypothesis HStr : forall s, P (JStr s).
Hypothesis HList : forall l, Forall P l -> P (JList l).
Hypothesis HDict : forall d, Forall (fun kv => P kv.2) d -> P (JDict d).

Fixpoint json_nested_ind (v : json) : P v :=
  match v with
  | JNull => HNull
  | JBool b => HBool b
  | JInt z => HInt z
  | JFloat bits => HFloat bits
  | JStr s => HStr s
  | JList l =>
      HList l
        ((fix elements (l : list json) : Forall P l :=
            match l with
            | [] => Forall_nil_2 P
            | x :: l' => Forall_cons_2 P x l' (json_nested_ind x) (elements l')
            end) l)
  | JDict d =>
      HDict d
        ((fix values (d : list (str * json)) : Forall (fun kv => P kv.2) d :=
            match d with
            | [] => Forall_nil_2 _
            | kv :: d' =>
                Forall_cons_2 (fun kv => P kv.2) kv d'
                  (json_nested_ind kv.2) (values d')
            end) d)
  end.
End json_induction.

(** ** Errors and Python's subscripts *)

Inductive error : Type :=
| KeyError            (* a dict has no such key *)
| TypeError           (* the object does not take a str subscript *)
| OSError             (* open() failed; IOError is its alias *)
| JSONDecodeError.    (* json.loads refused the text *)

Inductive result (A : Type) : Type :=
| Ok (a : A)
| Err (e : error).
Arguments Ok {A} a.
Arguments Err {A} e.

Definition bind {A B : Type} (r : result A) (k : A -> result B) : result B :=
  match r with
  | Ok a => k a
  | Err e => Err e
  end.

Notation "x <- r ;; k" := (bind r (fun x => k))
  (at level 100, r at next level, right associativity,
   format "x  <-  r  ;;  '/' k").

(** [obj[key]] read with a [str] key. *)
Definition getitem (obj : json) (key : str) : result json :=
  match obj with
  | JDict d =>
      match dict_get key d with
      | Some v => Ok v
      | None => Err KeyError
      end
  | _ => Err TypeError
  end.

(** [obj[key] = value] with a [str] key. *)
Definition setitem (obj : json) (key : str) (value : json) : result json :=
  match obj with
  | JDict d => Ok (JDict (dict_set key value d))
  | _ => Err TypeError
  end.

(** The assignment [obj[k1]...[kn][last] = value].  Python reads
    [obj[k1]], then [...[k2]] and so on, and stores into the object it
    reached; that object is the one held inside [obj], so here every dict
    on the way is rebuilt around the changed one. *)
Fixpoint subscript_assign
    (obj : json) (keys : list str) (last : str) (value : json) : result json :=
  match keys with
  | [] => setitem obj last value
  | k :: keys' =>
      inner <- getitem obj k ;;
      inner' <- subscript_assign inner keys' last value ;;
      setitem obj k inner'
  end.

(** ** The three edits *)

(** [connection_profile['client']['organization'] = 'Org1MSP'] *)
Definition fix_organization (connection_profile : json) : result json :=
  subscript_assign connection_profile [lit "client"] (lit "organization")
    (JStr (lit "Org1MSP")).

Definition discovery_settings : json :=
  JDict [(lit "enabled", JBool true); (lit "asLocalhost", JBool true)].

(** [connection_profile['client']['connection']['timeout']['discover'] = {...}] *)
Definition add_discovery (connection_profile : json) : result json :=
  subscript_assign connection_profile
    [lit "client"; lit "connection"; lit "timeout"] (lit "discover")
    discovery_settings.

(** The body of the first branch of the loop: the certificate on one line. *)
Definition single_line (value : str) : str :=
  let lines := Str.split NL (Str.strip value) in
  Str.join ESCAPED_NL lines.

(** [key == 'pem' and isinstance(value, str) and
    '-----BEGIN CERTIFICATE-----' in value] *)
Definition is_certificate (key : str) (value : json) : bool :=
  match value with
  | JStr s => bool_decide (key = lit "pem") && Str.contains BEGIN_CERTIFICATE s
  | _ => false
  end.

(** [fix_certificates(obj)].  The loop over [obj.items()] stores into
    [obj[key]] as it goes: a certificate is replaced by its one-line form,
    a nested dict or list is changed in place by the recursive call, which
    is the same as storing the changed value back under its key.  The
    recursion is as deep as the document; the interpreter's recursion limit
    is not modelled. *)
Fixpoint fix_certificates (obj : json) : json :=
  match obj with
  | JDict items =>
      JDict
        (fold_left
           (fun d (item : str * json) =>
              let (key, value) := item in
              match value with
              | JStr s =>
                  if is_certificate key value
                  then dict_set key (JStr (single_line s)) d
                  else d
              | JDict _ | JList _ => dict_set key (fix_certificates value) d
              | _ => d
              end)
           items items)
  | JList items => JList (fix_certificates <$> items)
  | _ => obj
  end.

(** The edits in the order of the script. *)
Definition patch (connection_profile : json) : result json :=
  cp1 <- fix_organization connection_profile ;;
  cp2 <- add_discovery cp1 ;;
  Ok (fix_certificates cp2).


(** What the loop of [fix_certificates] leaves under [key] when it found
    [value] there. *)
Definition fix_value (key : str) (value : json) : json :=
  match value with
  | JStr s => if is_certificate key value then JStr (single_line s) else value
  | JDict _ | JList _ => fix_certificates value
  | _ => value
  end.

(** ** Addressing a field

    A field of a document is named by the keys and list positions on the
    way to it. *)

Inductive step : Type :=
| Key (k : str)
| Idx (i : nat).

Abbreviation path := (list step) (only parsing).

Fixpoint get_path (v : json) (p : path) : option json :=
  match p with
  | [] => Some v
  | s :: p' =>
      match s, v with
      | Key k, JDict d => dict_get k d ≫= fun x => get_path x p'
      | Idx i, JList l => l !! i ≫= fun x => get_path x p'
      | _, _ => None
      end
  end.

(** The field the assignment [obj[k1]...[kn][last] = value] names. *)
Definition site (keys : list str) (last : str) : path := Key <$> (keys ++ [last]).

(** The two fields the script assigns. *)
Definition ORGANIZATION : path := Key <$> [lit "client"; lit "organization"].
Definition DISCOVER : path :=
  Key <$> [lit "client"; lit "connection"; lit "timeout"; lit "discover"].

(** [p] is neither at or below the field [site] nor on the way to it. *)
Definition apart (site p : path) : Prop :=
  ¬ site `prefix_of` p /\ ¬ p `prefix_of` site.

(** What [fix_certificates] makes of the value found at [p]: the key it was
    found under decides, and a list position is no key. *)
Definition fix_at (p : path) (v : json) : json :=
  match last p with
  | Some (Key k) => fix_value k v
  | _ => fix_certificates v
  end.

(** The value at [p] is a certificate under a key [pem]. *)
Definition is_certificate_at (p : path) (v : json) : bool :=
  match last p with
  | Some (Key k) => is_certificate k v
  | _ => false
  end.

(** Under the keys [q] there is a dict, and it has no key [k]. *)
Definition missing_key (doc : json) (q : list str) (k : str) : Prop :=
  exists d, get_path doc (Key <$> q) = Some (JDict d) /\ dict_get k d = None.

Definition BACKSLASH : char := 92%N.

(** The keys, in order, of the dict at [p]. *)
Definition keys_at (v : json) (p : path) : option (list str) :=
  get_path v p ≫= fun x =>
    match x with
    | JDict d => Some d.*1
    | _ => None
    end.

(** The keys of a dict after a store under [key]. *)
Definition with_key (key : str) (keys : list str) : list str :=
  if bool_decide (key ∈ keys) then keys else keys ++ [key].

(** ** The files and the run

    A file has its text and whether this process may read and write it.
    The files are keyed by their names: a key stands for one file, however
    many paths lead to it.  A name with no file may or may not be one where
    a file can be created.  A file holds text; its encoding is not
    modelled.

    Which file a path of the script names is decided by the operating
    system, from the working directory and the links on the way.  [run]
    below reads each of the three paths as the name of a file, which is
    the run in a directory where the three paths name three files.
    [run_resolved], further down, takes the resolution as a parameter and
    also covers the directories where two of the paths name one file. *)

Record file : Type := File { data : str; readable : bool; writable : bool }.

Record filesystem : Type :=
  Filesystem { files : gmap string file; may_create : string -> bool }.

Definition SOURCE : string := "../config/connection-profile.json".
Definition BACKUP : string := "../config/connection-profile.json.bak".
Definition OUTPUT : string := "config/connection-profile.json".

(** [open(path, 'r')] and [f.read()]. *)
Definition read_file (fs : filesystem) (path : string) : result str :=
  match files fs !! path with
  | Some f => if readable f then Ok (data f) else Err OSError
  | None => Err OSError
  end.

(** [open(path, 'w')] and the writes into it. *)
Definition write_file (fs : filesystem) (path : string) (text : str)
    : result filesystem :=
  match files fs !! path with
  | Some f =>
      if writable f
      then Ok (Filesystem (<[path := File text (readable f) true]> (files fs))
                 (may_create fs))
      else Err OSError
  | None =>
      if may_create fs path
      then Ok (Filesystem (<[path := File text true true]> (files fs))
                 (may_create fs))
      else Err OSError
  end.

(** The command [cp src dst]: the copy is made and the exit status is 0, or
    nothing changes and the status is not 0.  The permissions [cp] gives a
    file it creates play no part below. *)
Definition cp (fs : filesystem) (src dst : string) : filesystem * Z :=
  match read_file fs src with
  | Ok text =>
      match write_file fs dst text with
      | Ok fs' => (fs', 0%Z)
      | Err _ => (fs, 1%Z)
      end
  | Err _ => (fs, 1%Z)
  end.

Section Run.

(** [json.loads], and the text [json.dump(_, f, indent=4)] writes. *)
Variable loads : str -> result json.
Variable dumps : json -> str.

(** Lines 10 to 39: read, parse, patch. *)
Definition load_and_patch (fs : filesystem) : result json :=
  content <- read_file fs SOURCE ;;
  connection_profile <- loads content ;;
  patch connection_profile.

(** Lines 10 to 45: the script after the backup.  The result is the line
    printed, or the exception the script died of. *)
Definition mutate_and_write (fs : filesystem) : filesystem * result str :=
  match load_and_patch fs with
  | Err e => (fs, Err e)
  | Ok connection_profile =>
      match write_file fs OUTPUT (dumps connection_profile) with
      | Err e => (fs, Err e)
      | Ok fs' => (fs', Ok (lit "Connection profile has been fixed."))
      end
  end.

(** The script.  [os.system] returns the status of the command and the
    script drops it. *)
Definition run (fs : filesystem) : filesystem * result str :=
  let (fs1, _) := cp fs SOURCE BACKUP in
  mutate_and_write fs1.

End Run.

(** ** The run, with the files the paths name

    [src], [bak] and [out] are the files the source, backup and output
    paths name.  When the source and the backup path name one file, [cp]
    refuses to copy a file onto itself and exits with a status that is not
    0. *)

Section RunAt.

Variable loads : str -> result json.
Variable dumps : json -> str.
Variables src bak out : string.

Definition copy_at (fs : filesystem) : filesystem * Z :=
  if bool_decide (src = bak) then (fs, 1%Z) else cp fs src bak.

Definition load_and_patch_at (fs : filesystem) : result json :=
  content <- read_file fs src ;;
  connection_profile <- loads content ;;
  patch connection_profile.

Definition mutate_and_write_at (fs : filesystem) : filesystem * result str :=
  match load_and_patch_at fs with
  | Err e => (fs, Err e)
  | Ok connection_profile =>
      match write_file fs out (dumps connection_profile) with
      | Err e => (fs, Err e)
      | Ok fs' => (fs', Ok (lit "Connection profile has been fixed."))
      end
  end.

Definition run_at (fs : filesystem) : filesystem * result str :=
  let (fs1, _) := copy_at fs in
  mutate_and_write_at fs1.

End RunAt.

(** The script where the operating system resolves a path to the file
    [resolve path]. *)
Definition run_resolved (resolve : string -> string)
    (loads : str -> result json) (dumps : json -> str) (fs : filesystem)
    : filesystem * result str :=
  run_at loads dumps (resolve SOURCE) (resolve BACKUP) (resolve OUTPUT) fs.

(** [open(path, 'w')] would succeed. *)
Definition can_write (fs : filesystem) (path : string) : bool :=
  match files fs !! path with
  | Some f => writable f
  | None => may_create fs path
  end.

(** The copy has nothing left to do: it cannot be made, or the destination
    already holds the text of the source. *)
Definition copy_settled (fs : filesystem) (src dst : string) : Prop :=
  forall text,
    read_file fs src = Ok text -> can_write fs dst = true ->
    exists r, files fs !! dst = Some (File text r true).

(** ** Sample documents *)

(** [{"client":{"organization":"X","connection":{"timeout":{}}}}] *)
Definition minimal_profile : json :=
  JDict [(lit "client",
          JDict [(lit "organization", JStr (lit "X"));
                 (lit "connection", JDict [(lit "timeout", JDict [])])])].

Definition minimal_profile_patched : json :=
  JDict [(lit "client",
          JDict [(lit "organization", JStr (lit "Org1MSP"));
                 (lit "connection",
                  JDict [(lit "timeout",
                          JDict [(lit "discover",
                                  JDict [(lit "enabled", JBool true);
                                         (lit "asLocalhost", JBool true)])])])])].

(** A certificate as a profile holds it: three lines, each ended by a
    line feed. *)
Definition sample_pem : str :=
  lit "-----BEGIN CERTIFICATE-----" ++ [NL] ++ lit "ABC" ++ [NL]
  ++ lit "-----END CERTIFICATE-----" ++ [NL].

(** A profile with a peer and its TLS certificate, and a list. *)
Definition sample_profile : json :=
  JDict [(lit "name", JStr (lit "test-network"));
         (lit "client",
          JDict [(lit "organization", JStr (lit "Org1"));
                 (lit "connection",
                  JDict [(lit "timeout",
                          JDict [(lit "peer", JDict [(lit "endorser", JStr (lit "300"))])])])]);
         (lit "peers",
          JDict [(lit "peer0.org1.example.com",
                  JDict [(lit "url", JStr (lit "grpcs://localhost:7051"));
                         (lit "tlsCACerts", JDict [(lit "pem", JStr sample_pem)])])]);
         (lit "orderers", JList [JStr (lit "orderer.example.com"); JInt 7050])].

(** ** Sample files

    The text of [minimal_profile] as a file holds it, and the text
    [json.dump(_, f, indent=4)] writes for [minimal_profile_patched]. *)

Definition QUOTE : char := 34%N.
Definition quoted (s : string) : str := [QUOTE] ++ lit s ++ [QUOTE].
Definition line (indent : nat) (s : str) : str := replicate indent 32%N ++ s.

Definition minimal_text : str :=
  lit "{" ++ quoted "client" ++ lit ":{"
  ++ quoted "organization" ++ lit ":" ++ quoted "X" ++ lit ","
  ++ quoted "connection" ++ lit ":{" ++ quoted "timeout" ++ lit ":{}}}}".

Definition minimal_text_patched : str :=
  Str.join [NL]
    [ line 0 (lit "{");
      line 4 (quoted "client" ++ lit ": {");
      line 8 (quoted "organization" ++ lit ": " ++ quoted "Org1MSP" ++ lit ",");
      line 8 (quoted "connection" ++ lit ": {");
      line 12 (quoted "timeout" ++ lit ": {");
      line 16 (quoted "discover" ++ lit ": {");
      line 20 (quoted "enabled" ++ lit ": true,");
      line 20 (quoted "asLocalhost" ++ lit ": true");
      line 16 (lit "}");
      line 12 (lit "}");
      line 8 (lit "}");
      line 4 (lit "}");
      line 0 (lit "}") ].

(** [json.loads] and [json.dump] on the one text and the one document the
    sample runs give them; the sample runs ask for nothing else. *)
Definition sample_loads (content : str) : result json :=
  if bool_decide (content = minimal_text) then Ok minimal_profile
  else Err JSONDecodeError.

Definition sample_dumps (_ : json) : str := minimal_text_patched.

(** The profile is in place; a backup of an earlier day is there and is
    read-only. *)
Definition fs_backup_read_only : filesystem :=
  Filesystem
    (<[SOURCE := File minimal_text true true]>
       (<[BACKUP := File (lit "{}") true false]> ∅))
    (fun _ => true).

(** The profile is in place; no file may be created beside it, and the
    output may be created. *)
Definition fs_backup_not_creatable : filesystem :=
  Filesystem
    (<[SOURCE := File minimal_text true true]> ∅)
    (fun path => bool_decide (path = OUTPUT)).



(** The script started in the root directory: [..] is the root itself, so
    the source path and the output path name one file. *)
Definition resolve_at_root (path : string) : string :=
  if bool_decide (path = SOURCE) then "/config/connection-profile.json"
  else if bool_decide (path = BACKUP) then "/config/connection-profile.json.bak"
  else if bool_decide (path = OUTPUT) then "/config/connection-profile.json"
  else path.

Definition fs_at_root : filesystem :=
  Filesystem
    (<["/config/connection-profile.json" := File minimal_text true true]> ∅)
    (fun _ => true).

(** Every path names the file of its own name. *)
Definition resolve_plain (path : string) : string := path.

(** * Properties *)

(** ** The operations on samples *)

Example lit_NL : lit (String (ascii_of_nat 10) EmptyString) = [NL].
Proof. reflexivity. Qed.

Example strip_sample :
  Str.strip (lit "  ab c " ++ [NL]) = lit "ab c".
Proof. reflexivity. Qed.

Example split_sample :
  Str.split NL (lit "a" ++ [NL] ++ lit "bc" ++ [NL]) = [lit "a"; lit "bc"; []].
Proof. reflexivity. Qed.

Example join_sample :
  Str.join ESCAPED_NL [lit "a"; lit "bc"; []] = lit "a\nbc\n".
Proof. reflexivity. Qed.


Example contains_sample :
  Str.contains BEGIN_CERTIFICATE (lit "x -----BEGIN CERTIFICATE-----") = true
  /\ Str.contains BEGIN_CERTIFICATE (lit "-----BEGIN CERT") = false.
Proof. split; reflexivity. Qed.

Example dict_set_sample :
  dict_set (lit "b") JNull [(lit "a", JInt 1); (lit "b", JInt 2); (lit "c", JInt 3)]
  = [(lit "a", JInt 1); (lit "b", JNull); (lit "c", JInt 3)]
  /\ dict_set (lit "d") JNull [(lit "a", JInt 1)]
     = [(lit "a", JInt 1); (lit "d", JNull)].
Proof. split; reflexivity. Qed.

(** A certificate of four lines with no line feed after the last one. *)
Example fix_certificates_sample :
  fix_certificates
    (JDict [(lit "pem",
             JStr (lit "-----BEGIN CERTIFICATE-----" ++ [NL] ++ lit "ABC" ++ [NL]
                   ++ lit "DEF" ++ [NL] ++ lit "-----END CERTIFICATE-----"))])
  = JDict [(lit "pem",
            JStr (lit "-----BEGIN CERTIFICATE-----\nABC\nDEF\n-----END CERTIFICATE-----"))].
Proof. reflexivity. Qed.

Example sample_profile_wf : wf sample_profile = true.
Proof. reflexivity. Qed.

Example sample_loads_minimal_text : sample_loads minimal_text = Ok minimal_profile.
Proof. reflexivity. Qed.
(** ** Strings *)

Module StrFacts.
Import Str.

Lemma split_not_nil sep s : split sep s <> [].
Proof.
  destruct s as [|c s]; simpl; [done|].
  case_bool_decide; [done|]. by destruct (split sep s).
Qed.

Lemma replace_char_cons c by_ x s :
  replace_char c by_ (x :: s)
  = (if bool_decide (x = c) then by_ else [x]) ++ replace_char c by_ s.
Proof. unfold replace_char. by rewrite bind_cons. Qed.

(** Joining the pieces with [by_] is replacing each separator by [by_]. *)
Lemma join_split sep by_ s :
  join by_ (split sep s) = replace_char sep by_ s.
Proof.
  induction s as [|c s IH]; [done|].
  rewrite replace_char_cons, <- IH. cbn [split].
  pose proof (split_not_nil sep s) as Hne.
  destruct (split sep s) as [|p ps]; [done|].
  case_bool_decide; [done|]. cbn [join]. by destruct ps.
Qed.

Lemma replace_char_app c by_ s t :
  replace_char c by_ (s ++ t) = replace_char c by_ s ++ replace_char c by_ t.
Proof. unfold replace_char. apply bind_app. Qed.

Lemma replace_char_cons_ne c by_ x s :
  x <> c -> replace_char c by_ (x :: s) = x :: replace_char c by_ s.
Proof.
  intros Hx. rewrite replace_char_cons. by rewrite bool_decide_eq_false_2.
Qed.

Lemma replace_char_absent c by_ s : c ∉ s -> replace_char c by_ s = s.
Proof.
  induction s as [|x s IH]; [done|].
  intros Hn. apply not_elem_of_cons in Hn as [Hx Hs].
  rewrite replace_char_cons_ne by done. by rewrite IH.
Qed.

Lemma replace_char_gone c by_ s : c ∉ by_ -> c ∉ replace_char c by_ s.
Proof.
  intros Hby Hin. unfold replace_char in Hin.
  apply list_elem_of_bind in Hin as (x & Hc & _).
  case_bool_decide; [done|].
  apply list_elem_of_singleton in Hc. congruence.
Qed.

Lemma split_absent sep s : sep ∉ s -> split sep s = [s].
Proof.
  induction s as [|x s IH]; [done|].
  intros Hn. apply not_elem_of_cons in Hn as [Hx Hs].
  simpl. rewrite bool_decide_eq_false_2 by done. by rewrite IH.
Qed.

(** *** [strip] *)

Lemma lstrip_idem s : lstrip (lstrip s) = lstrip s.
Proof.
  induction s as [|c s IH]; [done|].
  simpl. destruct (is_space c) eqn:E; [done|]. simpl. by rewrite E.
Qed.

Lemma lstrip_app s r :
  lstrip (s ++ r) = match lstrip s with [] => lstrip r | _ => lstrip s ++ r end.
Proof.
  induction s as [|c s IH]; [done|].
  simpl. by destruct (is_space c).
Qed.

Lemma lstrip_head c s : is_space c = false -> lstrip (c :: s) = c :: s.
Proof. intros E. simpl. by rewrite E. Qed.

Lemma lstrip_length s : length (lstrip s) <= length s.
Proof.
  induction s as [|c s IH]; simpl; [lia|].
  destruct (is_space c); simpl; lia.
Qed.

Lemma lstrip_fixed_inv s :
  lstrip s = s -> s = [] \/ exists c s', s = c :: s' /\ is_space c = false.
Proof.
  destruct s as [|c s]; intros Hfix; [by left|].
  right. exists c, s. split; [done|].
  destruct (is_space c) eqn:E; [|done]. exfalso.
  simpl in Hfix. rewrite E in Hfix.
  pose proof (lstrip_length s) as Hlen.
  rewrite Hfix in Hlen. simpl in Hlen. lia.
Qed.

Lemma trimmed_strip s : trimmed s -> strip s = s.
Proof.
  intros [Hl Hr]. unfold strip, rstrip. by rewrite Hl, Hr, reverse_involutive.
Qed.

Lemma strip_trimmed s : trimmed (strip s).
Proof.
  unfold trimmed, strip, rstrip. rewrite reverse_involutive, lstrip_idem.
  split; [|done].
  destruct (lstrip_fixed_inv (lstrip s) (lstrip_idem s)) as [E|(c & s' & E & Hc)];
    rewrite E; [done|].
  rewrite reverse_cons, lstrip_app.
  destruct (lstrip (reverse s')) as [|x t] eqn:Et.
  - rewrite lstrip_head by done. simpl. by rewrite Hc.
  - rewrite reverse_app. simpl. by rewrite Hc.
Qed.

Lemma trimmed_replace_char c by_ s :
  is_space c = true -> trimmed s -> trimmed (replace_char c by_ s).
Proof.
  intros Hc [Hl Hr]. split.
  - destruct (lstrip_fixed_inv _ Hl) as [->|(x & s' & -> & Hx)]; [done|].
    rewrite replace_char_cons_ne by congruence. by apply lstrip_head.
  - destruct (lstrip_fixed_inv _ Hr) as [E|(x & t & E & Hx)].
    + apply (f_equal reverse) in E. rewrite reverse_involutive in E.
      by rewrite E.
    + apply (f_equal reverse) in E. rewrite reverse_involutive in E.
      rewrite E, reverse_cons, replace_char_app.
      rewrite (replace_char_cons_ne _ _ x []) by congruence.
      rewrite reverse_app. simpl. by rewrite Hx.
Qed.

(** A trailing whitespace character does not survive [strip]. *)
Lemma strip_snoc_space s c : is_space c = true -> strip (s ++ [c]) = strip s.
Proof.
  intros Hc. unfold strip. rewrite lstrip_app.
  destruct (lstrip s) as [|x t] eqn:E.
  - simpl. by rewrite Hc.
  - unfold rstrip. rewrite reverse_app. simpl. by rewrite Hc.
Qed.

End StrFacts.

(** ** Dicts *)


Lemma dict_get_None key (d : list (str * json)) :
  dict_get key d = None <-> key ∉ d.*1.
Proof.
  induction d as [|[k v] d IH]; simpl.
  - split; [intros _; apply not_elem_of_nil | done].
  - case_bool_decide as Hk.
    + split; [done|]. intros Hn. exfalso. apply Hn. subst. left.
    + rewrite IH, not_elem_of_cons. split; [by intros ?; split|by intros [_ ?]].
Qed.

Lemma dict_get_elem key v (d : list (str * json)) :
  dict_get key d = Some v -> (key, v) ∈ d.
Proof.
  induction d as [|[k w] d IH]; simpl; [done|].
  case_bool_decide as Hk.
  - intros [= ->]. subst. left.
  - intros H. right. auto.
Qed.

Lemma dict_get_set_eq key value (d : list (str * json)) :
  dict_get key (dict_set key value d) = Some value.
Proof.
  induction d as [|[k v] d IH]; simpl.
  - by rewrite bool_decide_eq_true_2.
  - case_bool_decide as Hk; simpl.
    + by rewrite bool_decide_eq_true_2.
    + by rewrite bool_decide_eq_false_2.
Qed.

Lemma dict_get_set_ne key key' value (d : list (str * json)) :
  key <> key' -> dict_get key' (dict_set key value d) = dict_get key' d.
Proof.
  intros Hne. induction d as [|[k v] d IH]; simpl.
  - by rewrite bool_decide_eq_false_2.
  - case_bool_decide as Hk; simpl.
    + subst. by rewrite !bool_decide_eq_false_2.
    + by rewrite IH.
Qed.

(** Storing what is already there changes nothing. *)
Lemma dict_set_same key value (d : list (str * json)) :
  dict_get key d = Some value -> dict_set key value d = d.
Proof.
  induction d as [|[k v] d IH]; simpl; [done|].
  case_bool_decide as Hk.
  - by intros [= ->].
  - intros H. by rewrite IH.
Qed.

(** Storing under the key of an item replaces that item where it stands. *)
Lemma dict_set_middle key value w (pre rest : list (str * json)) :
  key ∉ pre.*1 ->
  dict_set key value (pre ++ (key, w) :: rest) = pre ++ (key, value) :: rest.
Proof.
  induction pre as [|[k v] pre IH]; simpl.
  - intros _. by rewrite bool_decide_eq_true_2.
  - intros Hn. apply not_elem_of_cons in Hn as [Hk Hpre].
    rewrite bool_decide_eq_false_2 by done. by rewrite IH.
Qed.

Lemma dict_set_keys key value (d : list (str * json)) :
  (dict_set key value d).*1
  = if bool_decide (key ∈ d.*1) then d.*1 else d.*1 ++ [key].
Proof.
  induction d as [|[k v] d IH]; [done|].
  cbn [dict_set]. destruct (decide (k = key)) as [->|Hk].
  - rewrite (bool_decide_eq_true_2 (key = key)) by done.
    rewrite bool_decide_eq_true_2; [done|left].
  - rewrite (bool_decide_eq_false_2 (k = key)) by done.
    rewrite fmap_cons, IH. cbn [fst].
    destruct (decide (key ∈ d.*1)) as [Hin|Hin].
    + rewrite (bool_decide_eq_true_2 _ Hin).
      by rewrite bool_decide_eq_true_2 by (by right).
    + rewrite (bool_decide_eq_false_2 _ Hin).
      rewrite bool_decide_eq_false_2; [done|].
      rewrite fmap_cons, not_elem_of_cons. by split.
Qed.

Lemma dict_set_NoDup key value (d : list (str * json)) :
  NoDup d.*1 -> NoDup (dict_set key value d).*1.
Proof.
  intros Hd. rewrite dict_set_keys. case_bool_decide as Hin; [done|].
  apply NoDup_app. split_and!; [done| |apply NoDup_singleton].
  intros x Hx Hx'. apply list_elem_of_singleton in Hx'. by subst.
Qed.

Lemma dict_set_elem key value (d : list (str * json)) kv :
  kv ∈ dict_set key value d -> kv = (key, value) \/ kv ∈ d.
Proof.
  induction d as [|[k v] d IH]; simpl.
  - intros H. apply list_elem_of_singleton in H. by left.
  - case_bool_decide as Hk.
    + intros [->|H]%elem_of_cons; [subst; by left|right; by right].
    + intros [->|H]%elem_of_cons; [right; left|].
      destruct (IH H) as [->|?]; [by left|right; by right].
Qed.

(** A loop over the items of a dict that stores a new value under the key
    of each item it visits computes the map of the items: the keys are
    distinct, so each store replaces the item being visited. *)
Lemma items_loop_map
    (body : list (str * json) -> str * json -> list (str * json))
    (h : str -> json -> json) :
  (forall pre rest k v,
      k ∉ pre.*1 -> body (pre ++ (k, v) :: rest) (k, v) = pre ++ (k, h k v) :: rest) ->
  forall items, NoDup items.*1 ->
    fold_left body items items = (fun kv => (kv.1, h kv.1 kv.2)) <$> items.
Proof.
  intros Hbody items Hnd.
  enough (forall pre, NoDup (pre ++ items).*1 ->
            fold_left body items (pre ++ items)
            = pre ++ ((fun kv => (kv.1, h kv.1 kv.2)) <$> items)) as Hgen
    by exact (Hgen [] Hnd).
  clear Hnd. induction items as [|[k v] items IH]; intros pre Hnd; [done|].
  cbn [fold_left fmap list_fmap fst snd].
  assert (k ∉ pre.*1) as Hk.
  { rewrite fmap_app in Hnd. apply NoDup_app in Hnd as (_ & Hdisj & Htail).
    intros Hin. apply (Hdisj k Hin). simpl. left. }
  rewrite Hbody by done.
  specialize (IH (pre ++ [(k, h k v)])).
  rewrite <- !(assoc_L (++)) in IH. simpl in IH. apply IH.
  rewrite !fmap_app in Hnd |- *. simpl in Hnd |- *. done.
Qed.

(** ** One certificate *)

Lemma single_line_replace s :
  single_line s = Str.replace_char NL ESCAPED_NL (Str.strip s).
Proof. apply StrFacts.join_split. Qed.

Lemma single_line_no_newline s : NL ∉ single_line s.
Proof.
  rewrite single_line_replace. apply StrFacts.replace_char_gone.
  unfold ESCAPED_NL, NL. rewrite !not_elem_of_cons. split_and!; [done..|].
  apply not_elem_of_nil.
Qed.

Lemma single_line_trimmed s : Str.trimmed (single_line s).
Proof.
  rewrite single_line_replace.
  apply StrFacts.trimmed_replace_char; [done|apply StrFacts.strip_trimmed].
Qed.

(** A string that is already one trimmed line is left as it is. *)
Lemma single_line_fixed s : Str.trimmed s -> NL ∉ s -> single_line s = s.
Proof.
  intros Ht Hn. unfold single_line.
  rewrite (StrFacts.trimmed_strip _ Ht), StrFacts.split_absent by done. done.
Qed.

Lemma single_line_idem s : single_line (single_line s) = single_line s.
Proof.
  apply single_line_fixed; [apply single_line_trimmed|apply single_line_no_newline].
Qed.

(** ** [fix_certificates] *)

Lemma wf_dict (d : list (str * json)) :
  wf (JDict d) = true <-> NoDup d.*1 /\ Forall (fun kv => wf kv.2 = true) d.
Proof.
  cbn [wf]. rewrite andb_true_iff, bool_decide_eq_true, forallb_forall.
  rewrite Forall_forall. setoid_rewrite list_elem_of_In. done.
Qed.

Lemma wf_list (l : list json) :
  wf (JList l) = true <-> Forall (fun x => wf x = true) l.
Proof.
  cbn [wf]. rewrite forallb_forall, Forall_forall.
  setoid_rewrite list_elem_of_In. done.
Qed.

Lemma wf_dict_get key v (d : list (str * json)) :
  wf (JDict d) = true -> dict_get key d = Some v -> wf v = true.
Proof.
  intros [_ Hall]%wf_dict Hget%dict_get_elem.
  rewrite Forall_forall in Hall. exact (Hall _ Hget).
Qed.

Lemma wf_dict_set key v (d : list (str * json)) :
  wf (JDict d) = true -> wf v = true -> wf (JDict (dict_set key v d)) = true.
Proof.
  intros [Hnd Hall]%wf_dict Hv. apply wf_dict. split.
  - by apply dict_set_NoDup.
  - rewrite Forall_forall in Hall |- *.
    intros kv [->|Hin]%dict_set_elem; [done|by apply Hall].
Qed.

(** On a dict with distinct keys the loop is a map over the items. *)
Lemma fix_certificates_dict (items : list (str * json)) :
  NoDup items.*1 ->
  fix_certificates (JDict items)
  = JDict ((fun kv => (kv.1, fix_value kv.1 kv.2)) <$> items).
Proof.
  intros Hnd. cbn [fix_certificates]. f_equal.
  apply (items_loop_map _ fix_value); [|done].
  intros pre rest k v Hk.
  destruct v; cbn [fix_value]; try done.
  - destruct (is_certificate k (JStr s)); [|done]. by apply dict_set_middle.
  - by apply dict_set_middle.
  - by apply dict_set_middle.
Qed.

Lemma fix_value_scalar key v :
  is_container v = false -> is_certificate key v = false -> fix_value key v = v.
Proof.
  destruct v; cbn [fix_value is_container]; try done.
  by intros _ ->.
Qed.

Lemma fix_value_container key v :
  is_container v = true -> fix_value key v = fix_certificates v.
Proof. by destruct v. Qed.

Lemma fix_certificates_scalar v :
  is_container v = false -> fix_certificates v = v.
Proof. by destruct v. Qed.

Lemma fix_certificates_wf v : wf v = true -> wf (fix_certificates v) = true.
Proof.
  induction v as [| | | | |l IH|d IH] using json_nested_ind; try done.
  - cbn [fix_certificates]. rewrite !wf_list, Forall_fmap.
    rewrite !Forall_forall in IH |- *. intros Hl. apply Forall_forall.
    intros x Hx. simpl. auto.
  - intros Hwf. pose proof Hwf as [Hnd Hall]%wf_dict.
    rewrite fix_certificates_dict by done. apply wf_dict. split.
    + by rewrite <- list_fmap_compose.
    + rewrite Forall_fmap. rewrite !Forall_forall in IH, Hall.
      apply Forall_forall.
      intros [k v] Hin. specialize (IH _ Hin). specialize (Hall _ Hin).
      simpl in *. destruct v; cbn [fix_value]; auto.
      by destruct (is_certificate k (JStr s)).
Qed.

Lemma fix_value_wf key v : wf v = true -> wf (fix_value key v) = true.
Proof.
  intros Hv. destruct v; cbn [fix_value]; try done.
  - by destruct (is_certificate key (JStr s)).
  - by apply fix_certificates_wf.
  - by apply fix_certificates_wf.
Qed.

Lemma fix_value_idem key v :
  (wf v = true -> fix_certificates (fix_certificates v) = fix_certificates v) ->
  wf v = true -> fix_value key (fix_value key v) = fix_value key v.
Proof.
  intros IH Hw. destruct v; cbn [fix_value]; try done.
  - destruct (is_certificate key (JStr s)) eqn:Hc; cbn [fix_value]; [|by rewrite Hc].
    destruct (is_certificate key (JStr (single_line s))); [|done].
    by rewrite single_line_idem.
  - rewrite fix_value_container; auto.
  - rewrite fix_value_container; auto.
Qed.

Lemma fix_certificates_idem v :
  wf v = true -> fix_certificates (fix_certificates v) = fix_certificates v.
Proof.
  induction v as [| | | | |l IH|d IH] using json_nested_ind; try done.
  - intros Hl%wf_list. cbn [fix_certificates]. f_equal.
    rewrite <- list_fmap_compose. apply Forall_fmap_ext_1.
    rewrite !Forall_forall in IH, Hl. apply Forall_forall.
    intros x Hx. simpl. auto.
  - intros Hwf. pose proof Hwf as [Hnd Hall]%wf_dict.
    rewrite fix_certificates_dict by done.
    rewrite fix_certificates_dict by (by rewrite <- list_fmap_compose).
    f_equal. rewrite <- list_fmap_compose. apply Forall_fmap_ext_1.
    rewrite !Forall_forall in IH, Hall. apply Forall_forall.
    intros [k v] Hin. specialize (IH _ Hin). specialize (Hall _ Hin).
    simpl in *. f_equal. by apply fix_value_idem.
Qed.

(** ** Fields of the repaired document *)

Lemma dict_get_fmap key (h : str -> json -> json) (d : list (str * json)) :
  dict_get key ((fun kv => (kv.1, h kv.1 kv.2)) <$> d) = h key <$> dict_get key d.
Proof.
  induction d as [|[k v] d IH]; [done|].
  rewrite fmap_cons. cbn [dict_get fst snd].
  case_bool_decide as Hk; [by subst|done].
Qed.

Lemma get_path_scalar v s p :
  is_container v = false -> get_path v (s :: p) = None.
Proof. by destruct v, s. Qed.

Lemma fix_at_cons s s' p v : fix_at (s :: s' :: p) v = fix_at (s' :: p) v.
Proof. unfold fix_at. by rewrite last_cons_cons. Qed.

Lemma fix_value_is_container key v :
  is_container (fix_value key v) = is_container v.
Proof.
  destruct v; cbn [fix_value]; try done.
  by destruct (is_certificate key (JStr s)).
Qed.

(** The field at [p] of the repaired document is the repaired field at [p]
    of the document: no field appears, none disappears. *)
Lemma get_path_fix_certificates p : forall v,
  wf v = true ->
  get_path (fix_certificates v) p = fix_at p <$> get_path v p.
Proof.
  induction p as [|s p IH]; intros v Hwf; [done|].
  assert (forall x, p <> [] -> wf x = true ->
            get_path (fix_certificates x) p = fix_at (s :: p) <$> get_path x p)
    as Hnext.
  { intros x Hp Hx. destruct p as [|s' p]; [done|].
    rewrite IH by done. apply option_fmap_ext. intros y. by rewrite fix_at_cons. }
  destruct v as [| | | | |l|d]; try by destruct s.
  - (* list *)
    destruct s as [k|i]; [done|].
    cbn [fix_certificates get_path]. rewrite list_lookup_fmap.
    destruct (l !! i) as [x|] eqn:Hx; [|done].
    cbn [fmap option_fmap option_map mbind option_bind].
    apply wf_list in Hwf. pose proof (Forall_lookup_1 _ _ _ _ Hwf Hx) as Hwx.
    destruct p as [|s' p]; [done|]. by apply Hnext.
  - (* dict *)
    pose proof Hwf as [Hnd Hall]%wf_dict.
    rewrite fix_certificates_dict by done.
    destruct s as [k|i]; [|done].
    cbn [get_path]. rewrite dict_get_fmap.
    destruct (dict_get k d) as [x|] eqn:Hx; [|done].
    cbn [fmap option_fmap option_map mbind option_bind].
    assert (wf x = true) as Hwx by exact (wf_dict_get _ _ _ Hwf Hx).
    destruct p as [|s' p]; [done|].
    destruct (is_container x) eqn:Hc.
    + rewrite fix_value_container by done. by apply Hnext.
    + rewrite !get_path_scalar; [done..|]. by rewrite fix_value_is_container.
Qed.

(** ** Subscript assignment *)

Lemma getitem_Ok obj key x :
  getitem obj key = Ok x <-> exists d, obj = JDict d /\ dict_get key d = Some x.
Proof.
  split.
  - destruct obj; try done. simpl.
    destruct (dict_get key items) eqn:E; [|done]. intros [= ->]. eauto.
  - intros (d & -> & H). simpl. by rewrite H.
Qed.

Lemma setitem_Ok obj key v obj' :
  setitem obj key v = Ok obj' <->
  exists d, obj = JDict d /\ obj' = JDict (dict_set key v d).
Proof.
  split.
  - destruct obj; try done. intros [= <-]. eauto.
  - by intros (d & -> & ->).
Qed.

Lemma bind_Ok {A B} (r : result A) (k : A -> result B) b :
  bind r k = Ok b <-> exists a, r = Ok a /\ k a = Ok b.
Proof.
  destruct r; simpl; split; try done; [eauto| |].
  - by intros (a' & [= ->] & ?).
  - by intros (a' & [=] & ?).
Qed.

Lemma apart_cons s site' p :
  apart (s :: site') (s :: p) -> apart site' p.
Proof.
  intros [H1 H2]. split; intros H; [apply H1|apply H2]; by apply prefix_cons.
Qed.

(** What a successful assignment does: the named field holds the value,
    every field apart from it is as before, and distinct keys stay
    distinct. *)
Lemma subscript_assign_Ok keys last v : forall obj obj',
  subscript_assign obj keys last v = Ok obj' ->
  get_path obj' (site keys last) = Some v
  /\ (forall p, apart (site keys last) p -> get_path obj' p = get_path obj p)
  /\ (wf obj = true -> wf v = true -> wf obj' = true).
Proof.
  unfold site. induction keys as [|k keys IH]; intros obj obj'.
  - cbn [subscript_assign]. intros (d & -> & ->)%setitem_Ok. split_and!.
    + simpl. by rewrite dict_get_set_eq.
    + intros [|[k'|i] p] [H1 H2]; [|simpl|done].
      * exfalso. apply H2, prefix_nil.
      * rewrite dict_get_set_ne; [done|]. intros ->. apply H1.
        apply prefix_cons, prefix_nil.
    + apply wf_dict_set.
  - cbn [subscript_assign].
    intros (inner & (d & -> & Hget)%getitem_Ok & (inner' & Hin & Hset)%bind_Ok)%bind_Ok.
    apply setitem_Ok in Hset as (d' & [= <-] & ->).
    destruct (IH _ _ Hin) as (Hv & Hframe & Hwf). split_and!.
    + simpl. by rewrite dict_get_set_eq.
    + intros [|[k'|i] p] Hp; [|simpl|done].
      * exfalso. apply Hp, prefix_nil.
      * destruct (decide (k = k')) as [<-|Hne].
        -- rewrite dict_get_set_eq, Hget. simpl. apply Hframe.
           by apply (apart_cons (Key k)).
        -- by rewrite dict_get_set_ne.
    + intros Hd Hw. apply wf_dict_set; [done|].
      apply Hwf; [|done]. exact (wf_dict_get _ _ _ Hd Hget).
Qed.

(** An assignment succeeds exactly when the object it stores into is there
    and is a dict. *)
Lemma subscript_assign_succeeds keys last v : forall obj,
  (exists obj', subscript_assign obj keys last v = Ok obj')
  <-> exists d, get_path obj (Key <$> keys) = Some (JDict d).
Proof.
  induction keys as [|k keys IH]; intros obj.
  - cbn [subscript_assign]. split.
    + intros (obj' & (d & -> & _)%setitem_Ok). by exists d.
    + intros (d & [= ->]). by eexists.
  - cbn [subscript_assign]. rewrite fmap_cons. split.
    + intros (obj' & (inner & (d & -> & Hget)%getitem_Ok & (inner' & Hin & _)%bind_Ok)%bind_Ok).
      simpl. rewrite Hget. simpl. apply IH. eauto.
    + intros (d & Hd). destruct obj as [| | | | | |d0]; try done.
      simpl in Hd |- *. destruct (dict_get k d0) as [inner|] eqn:Hget; [|done].
      simpl in Hd |- *. destruct (proj2 (IH inner)) as (inner' & ->); [eauto|].
      simpl. eauto.
Qed.

(** A failed assignment dies of a missing key or of an object that is no
    dict. *)
Lemma subscript_assign_Err keys last v : forall obj e,
  subscript_assign obj keys last v = Err e -> e = KeyError \/ e = TypeError.
Proof.
  induction keys as [|k keys IH]; intros obj e.
  - destruct obj; simpl; intros [= <-]; auto.
  - cbn [subscript_assign]. destruct obj as [| | | | | |d]; simpl;
      try (intros [= <-]; auto).
    destruct (dict_get k d) as [inner|]; simpl; [|intros [= <-]; auto].
    destruct (subscript_assign inner keys last v) eqn:E; simpl; [done|].
    intros [= <-]. eauto.
Qed.

(** Assigning what the field already holds changes nothing. *)
Lemma subscript_assign_same keys last v : forall obj,
  get_path obj (site keys last) = Some v ->
  subscript_assign obj keys last v = Ok obj.
Proof.
  unfold site. induction keys as [|k keys IH]; intros obj.
  - destruct obj as [| | | | | |d]; try done. simpl.
    destruct (dict_get last d) as [x|] eqn:Hget; [|done]. simpl.
    intros [= ->]. by rewrite dict_set_same.
  - destruct obj as [| | | | | |d]; try done. simpl.
    destruct (dict_get k d) as [inner|] eqn:Hget; [|done]. simpl.
    intros H. rewrite (IH _ H). simpl. by rewrite dict_set_same.
Qed.

(** ** The three edits together *)

Lemma get_path_app p q : forall v,
  get_path v (p ++ q) = get_path v p ≫= fun x => get_path x q.
Proof.
  induction p as [|s p IH]; intros v; [done|].
  destruct s as [k|i], v as [| | | | |l|d]; try done; simpl.
  - destruct (dict_get k d); simpl; [apply IH|done].
  - destruct (l !! i); simpl; [apply IH|done].
Qed.

Lemma prefix_snoc_inv {A} (p l : list A) x :
  p `prefix_of` l ++ [x] -> p = l ++ [x] \/ p `prefix_of` l.
Proof.
  intros [r Hr]. destruct r as [|y r _] using rev_ind.
  - left. by rewrite app_nil_r in Hr.
  - right. rewrite (assoc_L (++)) in Hr. apply app_inj_tail in Hr as [-> _].
    by exists r.
Qed.

(** A field that is no container is not on the way to a field a successful
    assignment names. *)
Lemma scalar_apart keys last obj d p v :
  get_path obj (Key <$> keys) = Some (JDict d) ->
  get_path obj p = Some v -> is_container v = false ->
  ¬ site keys last `prefix_of` p -> apart (site keys last) p.
Proof.
  intros Hd Hp Hv Hsite. split; [done|]. unfold site. rewrite fmap_snoc.
  intros [Heq|[r Hr]]%prefix_snoc_inv.
  - apply Hsite. unfold site. by rewrite fmap_snoc, Heq.
  - rewrite Hr, get_path_app, Hp in Hd. simpl in Hd.
    destruct r as [|s r]; [|by rewrite get_path_scalar in Hd].
    simpl in Hd. injection Hd as ->. done.
Qed.

Lemma patch_Ok doc out :
  patch doc = Ok out <->
  exists cp1 cp2,
    fix_organization doc = Ok cp1 /\ add_discovery cp1 = Ok cp2
    /\ out = fix_certificates cp2.
Proof.
  unfold patch. split.
  - destruct (fix_organization doc) as [cp1|] eqn:E1; simpl; [|done].
    destruct (add_discovery cp1) as [cp2|] eqn:E2; simpl; [|done].
    intros [= <-]. by exists cp1, cp2.
  - intros (cp1 & cp2 & -> & H2 & ->). simpl. by rewrite H2.
Qed.

Lemma sites_apart : apart ORGANIZATION DISCOVER /\ apart DISCOVER ORGANIZATION.
Proof.
  split; split; intros [k H]; vm_compute in H; discriminate H.
Qed.

(** The object [add_discovery] stores into is apart from the field
    [fix_organization] assigns. *)
Lemma timeout_apart :
  apart ORGANIZATION (Key <$> [lit "client"; lit "connection"; lit "timeout"]).
Proof.
  split; intros [k H]; vm_compute in H; discriminate H.
Qed.

(** What a successful [patch] leaves: the two assigned fields, and at every
    path apart from them the repaired field of the input. *)
Lemma patch_fields doc out :
  wf doc = true -> patch doc = Ok out ->
  wf out = true
  /\ get_path out ORGANIZATION = Some (JStr (lit "Org1MSP"))
  /\ get_path out DISCOVER = Some discovery_settings
  /\ (forall p, apart ORGANIZATION p -> apart DISCOVER p ->
        get_path out p = fix_at p <$> get_path doc p)
  /\ fix_certificates out = out.
Proof.
  intros Hwf (cp1 & cp2 & H1 & H2 & ->)%patch_Ok.
  apply subscript_assign_Ok in H1 as (Horg1 & Hframe1 & Hwf1).
  apply subscript_assign_Ok in H2 as (Hdis2 & Hframe2 & Hwf2).
  assert (wf cp2 = true) as Hw2 by (apply Hwf2; [by apply Hwf1|done]).
  split_and!.
  - by apply fix_certificates_wf.
  - rewrite get_path_fix_certificates by done.
    rewrite (Hframe2 ORGANIZATION) by apply sites_apart.
    change (site _ (lit "organization")) with ORGANIZATION in Horg1.
    by rewrite Horg1.
  - rewrite get_path_fix_certificates by done.
    change (site _ (lit "discover")) with DISCOVER in Hdis2.
    by rewrite Hdis2.
  - intros p Hp1 Hp2. rewrite get_path_fix_certificates by done.
    by rewrite Hframe2, Hframe1.
  - by apply fix_certificates_idem.
Qed.

Lemma wf_get_path p : forall v x,
  wf v = true -> get_path v p = Some x -> wf x = true.
Proof.
  induction p as [|s p IH]; intros v x Hwf; [by intros [= <-]|].
  destruct s as [k|i], v as [| | | | |l|d]; try done; simpl.
  - destruct (dict_get k d) as [y|] eqn:Hy; [|done]. simpl.
    apply IH. exact (wf_dict_get _ _ _ Hwf Hy).
  - destruct (l !! i) as [y|] eqn:Hy; [|done]. simpl.
    apply IH. apply wf_list in Hwf. exact (Forall_lookup_1 _ _ _ _ Hwf Hy).
Qed.

(** A certificate under [pem], wherever it is, comes out on one line. *)
Lemma pem_field_rewritten doc p v :
  wf doc = true ->
  get_path doc (p ++ [Key (lit "pem")]) = Some (JStr v) ->
  Str.contains BEGIN_CERTIFICATE v = true ->
  get_path (fix_certificates doc) (p ++ [Key (lit "pem")])
  = Some (JStr (single_line v)).
Proof.
  intros Hwf Hv Hc. rewrite get_path_fix_certificates, Hv by done.
  simpl. unfold fix_at. rewrite last_snoc. cbn [fix_value is_certificate].
  by rewrite bool_decide_eq_true_2, Hc.
Qed.

Lemma fix_at_scalar p v :
  is_container v = false -> is_certificate_at p v = false -> fix_at p v = v.
Proof.
  unfold fix_at, is_certificate_at. intros Hc Hp.
  destruct (last p) as [[k|i]|].
  - by apply fix_value_scalar.
  - by apply fix_certificates_scalar.
  - by apply fix_certificates_scalar.
Qed.

Lemma fix_at_dict p (d : list (str * json)) :
  wf (JDict d) = true ->
  exists d', fix_at p (JDict d) = JDict d' /\ d'.*1 = d.*1.
Proof.
  intros Hwf. pose proof Hwf as [Hnd _]%wf_dict.
  assert (fix_at p (JDict d) = fix_certificates (JDict d)) as ->.
  { unfold fix_at. by destruct (last p) as [[k|i]|]. }
  rewrite fix_certificates_dict by done. eexists. split; [done|].
  by rewrite <- list_fmap_compose.
Qed.

Lemma fix_at_list p (l : list json) :
  exists l', fix_at p (JList l) = JList l' /\ length l' = length l.
Proof.
  assert (fix_at p (JList l) = fix_certificates (JList l)) as ->.
  { unfold fix_at. by destruct (last p) as [[k|i]|]. }
  eexists. split; [done|]. by rewrite length_fmap.
Qed.

Lemma get_path_key_dict x k q y :
  get_path x (Key k :: q) = Some y -> exists d, x = JDict d.
Proof. destruct x; try done. eauto. Qed.

(** [patch] succeeds exactly on the documents in which
    [client.connection.timeout] is a dict. *)
Lemma patch_succeeds doc :
  (exists out, patch doc = Ok out)
  <-> exists t,
      get_path doc (Key <$> [lit "client"; lit "connection"; lit "timeout"])
      = Some (JDict t).
Proof.
  split.
  - intros (out & (cp1 & cp2 & H1 & H2 & _)%patch_Ok).
    assert (exists cp2, add_discovery cp1 = Ok cp2) as Hex by eauto.
    apply subscript_assign_succeeds in Hex as (t & Ht).
    apply subscript_assign_Ok in H1 as (_ & Hframe1 & _).
    exists t. rewrite <- Ht. symmetry. apply Hframe1, timeout_apart.
  - intros (t & Ht).
    assert (exists c, get_path doc (Key <$> [lit "client"]) = Some (JDict c)) as Hc.
    { change (Key <$> [lit "client"; lit "connection"; lit "timeout"])
        with ((Key <$> [lit "client"])
                ++ (Key <$> [lit "connection"; lit "timeout"])) in Ht.
      rewrite get_path_app in Ht.
      destruct (get_path doc (Key <$> [lit "client"])) as [c|]; [|done].
      simpl in Ht. destruct c; try done. eauto. }
    apply (subscript_assign_succeeds _ (lit "organization") (JStr (lit "Org1MSP")))
      in Hc as (cp1 & H1).
    pose proof H1 as (_ & Hframe1 & _)%subscript_assign_Ok.
    rewrite <- (Hframe1 _ timeout_apart) in Ht.
    assert (exists t, get_path cp1
              (Key <$> [lit "client"; lit "connection"; lit "timeout"])
              = Some (JDict t)) as Hex by eauto.
    apply (subscript_assign_succeeds _ (lit "discover") discovery_settings)
      in Hex as (cp2 & H2).
    exists (fix_certificates cp2). apply patch_Ok. eauto.
Qed.

Lemma patch_Err doc e : patch doc = Err e -> e = KeyError \/ e = TypeError.
Proof.
  unfold patch.
  destruct (fix_organization doc) as [cp1|e1] eqn:E1; simpl.
  - destruct (add_discovery cp1) as [cp2|e2] eqn:E2; simpl; [done|].
    intros [= <-]. by eapply subscript_assign_Err.
  - intros [= <-]. by eapply subscript_assign_Err.
Qed.

(** ** Files *)


Lemma read_file_Err fs path e : read_file fs path = Err e -> e = OSError.
Proof.
  unfold read_file. destruct (files fs !! path) as [f|]; [|by intros [= <-]].
  destruct (readable f); [done|by intros [= <-]].
Qed.

Lemma write_file_Ok fs path text fs' :
  write_file fs path text = Ok fs' ->
  can_write fs path = true
  /\ exists f, files fs' = <[path := f]> (files fs) /\ data f = text.
Proof.
  unfold write_file, can_write. destruct (files fs !! path) as [f|].
  - destruct (writable f); [|done]. intros [= <-]. split; [done|]. by eexists.
  - destruct (may_create fs path); [|done]. intros [= <-]. split; [done|].
    by eexists.
Qed.

Lemma write_file_Err fs path text e :
  write_file fs path text = Err e -> can_write fs path = false /\ e = OSError.
Proof.
  unfold write_file, can_write. destruct (files fs !! path) as [f|].
  - destruct (writable f); [done|]. by intros [= <-].
  - destruct (may_create fs path); [done|]. by intros [= <-].
Qed.

Lemma write_file_can_write fs path text :
  can_write fs path = true -> exists fs', write_file fs path text = Ok fs'.
Proof.
  intros Hw. destruct (write_file fs path text) as [fs'|e] eqn:E; [eauto|].
  apply write_file_Err in E as [E _]. congruence.
Qed.

(** A copy that fails leaves every file as it was. *)
Lemma cp_failed fs src dst : (cp fs src dst).2 <> 0%Z -> (cp fs src dst).1 = fs.
Proof.
  unfold cp. destruct (read_file fs src) as [text|]; [|done].
  by destruct (write_file fs dst text).
Qed.

(** A copy writes to its destination only. *)
Lemma cp_other fs src dst path :
  path <> dst -> files (cp fs src dst).1 !! path = files fs !! path.
Proof.
  intros Hne. unfold cp. destruct (read_file fs src) as [text|]; [|done].
  destruct (write_file fs dst text) as [fs'|] eqn:E; [|done].
  apply write_file_Ok in E as (_ & f & Hf & _). simpl.
  by rewrite Hf, lookup_insert_ne.
Qed.


Lemma cp_can_write fs src dst path :
  path <> dst -> can_write (cp fs src dst).1 path = can_write fs path.
Proof.
  intros Hne. unfold can_write. rewrite cp_other by done.
  assert (may_create (cp fs src dst).1 = may_create fs) as ->; [|done].
  unfold cp. destruct (read_file fs src) as [text|]; [|done].
  unfold write_file. destruct (files fs !! dst) as [f|].
  - by destruct (writable f).
  - by destruct (may_create fs dst).
Qed.

Lemma read_file_ext fs fs' path :
  files fs' !! path = files fs !! path -> read_file fs' path = read_file fs path.
Proof. unfold read_file. by intros ->. Qed.

Lemma SOURCE_BACKUP : SOURCE <> BACKUP.
Proof. done. Qed.

Lemma OUTPUT_BACKUP : OUTPUT <> BACKUP.
Proof. done. Qed.

Lemma SOURCE_OUTPUT : SOURCE <> OUTPUT.
Proof. done. Qed.

Section RunFacts.
Variable loads : str -> result json.
Variable dumps : json -> str.



Lemma mutate_and_write_Err fs e :
  load_and_patch loads fs = Err e ->
  mutate_and_write loads dumps fs = (fs, Err e).
Proof. intros H. unfold mutate_and_write. by rewrite H. Qed.

Lemma mutate_and_write_Ok fs msg :
  (mutate_and_write loads dumps fs).2 = Ok msg ->
  exists text, read_file fs SOURCE = Ok text.
Proof.
  unfold mutate_and_write, load_and_patch.
  destruct (read_file fs SOURCE) as [text|]; [eauto|done].
Qed.

Lemma run_unfold fs :
  run loads dumps fs = mutate_and_write loads dumps (cp fs SOURCE BACKUP).1.
Proof. unfold run. by destruct (cp fs SOURCE BACKUP). Qed.

End RunFacts.

(** * The claims about the document *)

(** C1, as the code has it: on every document in which
    [client.connection.timeout] is a dict, the patch succeeds and leaves
    [{enabled: true, asLocalhost: true}] at
    [client.connection.timeout.discover]; on every other document the patch
    fails with a KeyError or a TypeError, and with a KeyError when
    [client], [connection] or [timeout] is the first one absent: no
    intermediate dict is created. *)
Theorem discover_set_when_parents_exist doc :
  wf doc = true ->
  ((exists t,
       get_path doc (Key <$> [lit "client"; lit "connection"; lit "timeout"])
       = Some (JDict t)) ->
   exists out, patch doc = Ok out /\ get_path out DISCOVER = Some discovery_settings)
  /\ ((forall t,
         get_path doc (Key <$> [lit "client"; lit "connection"; lit "timeout"])
         <> Some (JDict t)) ->
      exists e, patch doc = Err e /\ (e = KeyError \/ e = TypeError))
  /\ (missing_key doc [] (lit "client")
      \/ missing_key doc [lit "client"] (lit "connection")
      \/ missing_key doc [lit "client"; lit "connection"] (lit "timeout") ->
      patch doc = Err KeyError).
Proof.
  intros Hwf. split_and!.
  - intros (out & Hout)%patch_succeeds. exists out. split; [done|].
    by apply (patch_fields doc out).
  - intros Hno. destruct (patch doc) as [out|e] eqn:E.
    + exfalso. destruct (proj1 (patch_succeeds doc)) as (t & Ht); [eauto|].
      by apply (Hno t).
    + exists e. split; [done|]. by apply (patch_Err doc).
  - unfold missing_key, patch, fix_organization, add_discovery.
    intros [(d & [= ->] & Hk)|[(c & Hc & Hk)|(k & Hc & Hk)]].
    + simpl. by rewrite Hk.
    + destruct doc as [| | | | | |d]; try done. simpl in Hc |- *.
      destruct (dict_get (lit "client") d) as [x|]; [|done].
      simpl in Hc |- *. injection Hc as ->. simpl.
      rewrite dict_get_set_eq. simpl.
      rewrite dict_get_set_ne by done. by rewrite Hk.
    + destruct doc as [| | | | | |d]; try done. simpl in Hc |- *.
      destruct (dict_get (lit "client") d) as [x|]; [|done].
      simpl in Hc |- *. destruct x as [| | | | | |c]; try done. simpl in Hc |- *.
      rewrite dict_get_set_eq. simpl.
      rewrite dict_get_set_ne by done.
      destruct (dict_get (lit "connection") c) as [y|]; [|done].
      simpl in Hc |- *. injection Hc as ->. simpl. by rewrite Hk.
Qed.

Lemma discover_set_when_parents_exist_witness :
  wf sample_profile = true
  /\ exists out,
      patch sample_profile = Ok out
      /\ get_path out DISCOVER = Some discovery_settings.
Proof.
  split; [reflexivity|].
  apply (proj1 (discover_set_when_parents_exist sample_profile eq_refl)).
  eexists. reflexivity.
Defined.

(** C1 fails on [{"client": {}}]: [connection] is absent, it is not
    created, and the patch dies of a KeyError. *)
Lemma discover_missing_parent_is_KeyError :
  patch (JDict [(lit "client", JDict [])]) = Err KeyError.
Proof. reflexivity. Qed.

(** C2, as the code has it: wherever a key [pem] holds a string with the
    certificate header, the repaired document holds there the lines of the
    stripped string (leading and trailing whitespace removed) joined by
    backslash-n; the result has no line feed, and it is the original lines
    joined when stripping changes nothing. *)
Theorem pem_lines_joined_after_strip doc p v :
  wf doc = true ->
  get_path doc (p ++ [Key (lit "pem")]) = Some (JStr v) ->
  Str.contains BEGIN_CERTIFICATE v = true ->
  exists v',
    get_path (fix_certificates doc) (p ++ [Key (lit "pem")]) = Some (JStr v')
    /\ v' = Str.join ESCAPED_NL (Str.split NL (Str.strip v))
    /\ (NL ∉ v')
    /\ (Str.strip v = v -> v' = Str.join ESCAPED_NL (Str.split NL v)).
Proof.
  intros Hwf Hv Hc. exists (single_line v). split_and!.
  - by apply pem_field_rewritten.
  - done.
  - apply single_line_no_newline.
  - intros Hs. unfold single_line. by rewrite Hs.
Qed.

Lemma pem_lines_joined_after_strip_witness :
  exists v',
    get_path (fix_certificates sample_profile)
      ([Key (lit "peers"); Key (lit "peer0.org1.example.com");
        Key (lit "tlsCACerts")] ++ [Key (lit "pem")]) = Some (JStr v')
    /\ v' = Str.join ESCAPED_NL (Str.split NL (Str.strip sample_pem))
    /\ (NL ∉ v')
    /\ (Str.strip sample_pem = sample_pem ->
        v' = Str.join ESCAPED_NL (Str.split NL sample_pem)).
Proof.
  apply (pem_lines_joined_after_strip sample_profile
           [Key (lit "peers"); Key (lit "peer0.org1.example.com");
            Key (lit "tlsCACerts")] sample_pem); reflexivity.
Defined.

(** C2 fails on a certificate with a line feed before the header and one
    after the footer: both are dropped, so the value written is not the
    original lines joined by backslash-n. *)
Lemma pem_outer_line_feeds_dropped :
  Str.contains BEGIN_CERTIFICATE ([NL] ++ sample_pem) = true
  /\ NL ∈ [NL] ++ sample_pem
  /\ fix_certificates (JDict [(lit "pem", JStr ([NL] ++ sample_pem))])
     = JDict [(lit "pem",
               JStr (lit "-----BEGIN CERTIFICATE-----\nABC\n-----END CERTIFICATE-----"))]
  /\ Str.join ESCAPED_NL (Str.split NL ([NL] ++ sample_pem))
     = lit "\n-----BEGIN CERTIFICATE-----\nABC\n-----END CERTIFICATE-----\n"
  /\ lit "-----BEGIN CERTIFICATE-----\nABC\n-----END CERTIFICATE-----"
     <> Str.join ESCAPED_NL (Str.split NL ([NL] ++ sample_pem)).
Proof.
  split_and!; [reflexivity|left|reflexivity|reflexivity|].
  intros H. vm_compute in H. discriminate H.
Qed.

(** C9: a certificate under [pem] is rewritten to its stripped value with
    every line feed left in it replaced by backslash-n; a line feed at the
    end of the value is removed by the strip and leaves no backslash-n. *)
Theorem pem_stripped_then_escaped doc p v :
  wf doc = true ->
  get_path doc (p ++ [Key (lit "pem")]) = Some (JStr v) ->
  Str.contains BEGIN_CERTIFICATE v = true ->
  get_path (fix_certificates doc) (p ++ [Key (lit "pem")])
  = Some (JStr (Str.replace_char NL ESCAPED_NL (Str.strip v)))
  /\ single_line (v ++ [NL]) = single_line v
  /\ Str.strip (v ++ [NL]) = Str.strip v.
Proof.
  intros Hwf Hv Hc. split_and!.
  - rewrite <- single_line_replace. by apply pem_field_rewritten.
  - unfold single_line. by rewrite StrFacts.strip_snoc_space.
  - by apply StrFacts.strip_snoc_space.
Qed.

Lemma pem_stripped_then_escaped_witness :
  get_path (fix_certificates sample_profile)
    ([Key (lit "peers"); Key (lit "peer0.org1.example.com");
      Key (lit "tlsCACerts")] ++ [Key (lit "pem")])
  = Some (JStr (Str.replace_char NL ESCAPED_NL (Str.strip sample_pem)))
  /\ single_line (sample_pem ++ [NL]) = single_line sample_pem
  /\ Str.strip (sample_pem ++ [NL]) = Str.strip sample_pem.
Proof.
  apply (pem_stripped_then_escaped sample_profile
           [Key (lit "peers"); Key (lit "peer0.org1.example.com");
            Key (lit "tlsCACerts")] sample_pem); reflexivity.
Defined.

(** C3: after a successful patch every field that is no dict and no list,
    is not at or below [client.organization] or
    [client.connection.timeout.discover], and is no certificate under
    [pem], holds the value it held; at the paths apart from the two
    assigned fields no field appears or disappears, a dict keeps its keys
    in their order and a list its length.  The same holds for
    [fix_certificates] alone at every path. *)
Theorem other_fields_unchanged doc out :
  wf doc = true -> patch doc = Ok out ->
  (forall p v,
      get_path doc p = Some v -> is_container v = false ->
      ¬ ORGANIZATION `prefix_of` p -> ¬ DISCOVER `prefix_of` p ->
      is_certificate_at p v = false ->
      get_path out p = Some v)
  /\ (forall p, apart ORGANIZATION p -> apart DISCOVER p ->
        (is_Some (get_path out p) <-> is_Some (get_path doc p))
        /\ (forall d, get_path doc p = Some (JDict d) ->
              exists d', get_path out p = Some (JDict d') /\ d'.*1 = d.*1)
        /\ (forall l, get_path doc p = Some (JList l) ->
              exists l', get_path out p = Some (JList l')
                         /\ length l' = length l))
  /\ (forall p v,
        get_path doc p = Some v -> is_container v = false ->
        is_certificate_at p v = false ->
        get_path (fix_certificates doc) p = Some v).
Proof.
  intros Hwf Hpatch.
  pose proof (patch_fields doc out Hwf Hpatch) as (_ & _ & _ & Hframe & _).
  split_and!.
  - intros p v Hv Hc Horg Hdis Hcert.
    pose proof Hpatch as (cp1 & cp2 & H1 & H2 & _)%patch_Ok.
    assert (exists c, get_path doc (Key <$> [lit "client"]) = Some (JDict c))
      as (c & Hclient).
    { apply (subscript_assign_succeeds _ (lit "organization")
               (JStr (lit "Org1MSP"))). eauto. }
    destruct (proj1 (patch_succeeds doc)) as (t & Ht); [eauto|].
    assert (apart ORGANIZATION p) as Hp1
      by exact (scalar_apart [lit "client"] _ _ _ _ _ Hclient Hv Hc Horg).
    assert (apart DISCOVER p) as Hp2
      by exact (scalar_apart [lit "client"; lit "connection"; lit "timeout"]
                  _ _ _ _ _ Ht Hv Hc Hdis).
    rewrite Hframe, Hv by done. simpl. by rewrite fix_at_scalar.
  - intros p Hp1 Hp2. rewrite Hframe by done. split_and!.
    + by rewrite fmap_is_Some.
    + intros d Hd. rewrite Hd. simpl.
      destruct (fix_at_dict p d) as (d' & -> & Hkeys); [|eauto].
      exact (wf_get_path _ _ _ Hwf Hd).
    + intros l Hl. rewrite Hl. simpl.
      destruct (fix_at_list p l) as (l' & -> & Hlen). eauto.
  - intros p v Hv Hc Hcert.
    rewrite get_path_fix_certificates, Hv by done. simpl.
    by rewrite fix_at_scalar.
Qed.

Lemma other_fields_unchanged_witness :
  exists out,
    patch sample_profile = Ok out
    /\ get_path out
         [Key (lit "peers"); Key (lit "peer0.org1.example.com"); Key (lit "url")]
       = Some (JStr (lit "grpcs://localhost:7051")).
Proof.
  exists (fix_certificates
            (match add_discovery
                     (match fix_organization sample_profile with
                      | Ok cp1 => cp1 | Err _ => JNull end) with
             | Ok cp2 => cp2 | Err _ => JNull end)).
  split; [reflexivity|].
  apply (proj1 (other_fields_unchanged sample_profile _ eq_refl eq_refl)
           [Key (lit "peers"); Key (lit "peer0.org1.example.com"); Key (lit "url")]
           (JStr (lit "grpcs://localhost:7051")));
    try reflexivity; intros [k H]; vm_compute in H; discriminate H.
Defined.

(** C4: patching the output of a successful patch succeeds and returns
    that output. *)
Theorem patch_idempotent doc out :
  wf doc = true -> patch doc = Ok out -> patch out = Ok out.
Proof.
  intros Hwf Hpatch.
  pose proof (patch_fields doc out Hwf Hpatch) as (_ & Horg & Hdis & _ & Hfix).
  assert (fix_organization out = Ok out) as E1
    by exact (subscript_assign_same [lit "client"] (lit "organization") _ _ Horg).
  assert (add_discovery out = Ok out) as E2
    by exact (subscript_assign_same [lit "client"; lit "connection"; lit "timeout"]
                (lit "discover") _ _ Hdis).
  unfold patch. rewrite E1. cbn [bind]. rewrite E2. cbn [bind]. by rewrite Hfix.
Qed.

Lemma patch_idempotent_witness :
  exists out, patch sample_profile = Ok out /\ patch out = Ok out.
Proof.
  exists (fix_certificates
            (match add_discovery
                     (match fix_organization sample_profile with
                      | Ok cp1 => cp1 | Err _ => JNull end) with
             | Ok cp2 => cp2 | Err _ => JNull end)).
  split; [reflexivity|].
  apply (patch_idempotent sample_profile); reflexivity.
Defined.

(** C6: on a document whose [client] is a dict the first edit succeeds and
    leaves ["Org1MSP"] at [client.organization], and so does every
    successful patch; when [client] is absent or no dict the edit, and the
    patch with it, fails with a KeyError or a TypeError. *)
Theorem organization_set_or_error doc :
  wf doc = true ->
  (forall c, get_path doc [Key (lit "client")] = Some (JDict c) ->
     exists cp1,
       fix_organization doc = Ok cp1
       /\ get_path cp1 ORGANIZATION = Some (JStr (lit "Org1MSP")))
  /\ (forall out, patch doc = Ok out ->
        get_path out ORGANIZATION = Some (JStr (lit "Org1MSP")))
  /\ ((forall c, get_path doc [Key (lit "client")] <> Some (JDict c)) ->
      exists e,
        fix_organization doc = Err e /\ patch doc = Err e
        /\ (e = KeyError \/ e = TypeError)).
Proof.
  intros Hwf. split_and!.
  - intros c Hc.
    destruct (proj2 (subscript_assign_succeeds [lit "client"] (lit "organization")
                       (JStr (lit "Org1MSP")) doc)) as (cp1 & H1); [eauto|].
    exists cp1. split; [done|]. by apply subscript_assign_Ok in H1 as (? & _).
  - intros out Hout. by apply (patch_fields doc out).
  - intros Hno. destruct (fix_organization doc) as [cp1|e] eqn:E.
    + exfalso.
      destruct (proj1 (subscript_assign_succeeds [lit "client"] (lit "organization")
                         (JStr (lit "Org1MSP")) doc)) as (c & Hc); [eauto|].
      by apply (Hno c).
    + exists e. split_and!; [done|by unfold patch; rewrite E|].
      by eapply subscript_assign_Err.
Qed.

Lemma organization_set_or_error_witness :
  wf sample_profile = true
  /\ exists cp1,
      fix_organization sample_profile = Ok cp1
      /\ get_path cp1 ORGANIZATION = Some (JStr (lit "Org1MSP")).
Proof.
  split; [reflexivity|].
  eapply (proj1 (organization_set_or_error sample_profile eq_refl)).
  reflexivity.
Defined.

(** C8: the patch of
    [{"client":{"organization":"X","connection":{"timeout":{}}}}] is the
    same document with ["Org1MSP"] as the organization and
    [{"enabled": true, "asLocalhost": true}] under [discover]; there is no
    certificate in it, and [fix_certificates] changes nothing. *)
Theorem scenario_minimal_profile :
  patch minimal_profile = Ok minimal_profile_patched
  /\ get_path minimal_profile_patched ORGANIZATION = Some (JStr (lit "Org1MSP"))
  /\ get_path minimal_profile_patched DISCOVER
     = Some (JDict [(lit "enabled", JBool true); (lit "asLocalhost", JBool true)])
  /\ fix_certificates minimal_profile_patched = minimal_profile_patched.
Proof. split_and!; reflexivity. Qed.

(** * The claims about the run *)

(** C5, as the code has it: when the source cannot be read the run dies of
    an OSError at the read, with no file changed; the status of the copy is
    never looked at, so a run whose copy failed goes on exactly as the
    script without the copy would. *)
Theorem failed_copy_seen_only_at_read
    (loads : str -> result json) (dumps : json -> str) (fs : filesystem) :
  (forall e, read_file fs SOURCE = Err e -> run loads dumps fs = (fs, Err OSError))
  /\ ((cp fs SOURCE BACKUP).2 <> 0%Z ->
      run loads dumps fs = mutate_and_write loads dumps fs).
Proof.
  split.
  - intros e He. rewrite run_unfold.
    assert ((cp fs SOURCE BACKUP).1 = fs) as ->.
    { apply cp_failed. unfold cp. by rewrite He. }
    apply mutate_and_write_Err. unfold load_and_patch. rewrite He.
    by rewrite (read_file_Err _ _ _ He).
  - intros Hst. by rewrite run_unfold, cp_failed.
Qed.

(** C5 fails when the backup is there and read-only: the copy fails with
    status 1, the script goes on, prints its line and writes the output. *)
Lemma read_only_backup_run_goes_on :
  read_file fs_backup_read_only SOURCE = Ok minimal_text
  /\ can_write fs_backup_read_only BACKUP = false
  /\ (cp fs_backup_read_only SOURCE BACKUP).2 = 1%Z
  /\ (run sample_loads sample_dumps fs_backup_read_only).2
     = Ok (lit "Connection profile has been fixed.")
  /\ data <$> files (run sample_loads sample_dumps fs_backup_read_only).1 !! OUTPUT
     = Some minimal_text_patched.
Proof. split_and!; vm_compute; reflexivity. Qed.




(** * Further properties *)

(** On a dict with distinct keys the loop of [fix_certificates] is a map
    over the items: each item keeps its key and its place, and its value is
    repaired. *)
Theorem fix_certificates_loop_is_map (items : list (str * json)) :
  NoDup items.*1 ->
  fix_certificates (JDict items)
  = JDict ((fun kv => (kv.1, fix_value kv.1 kv.2)) <$> items).
Proof. apply fix_certificates_dict. Qed.

Lemma fix_certificates_loop_is_map_witness :
  fix_certificates
    (JDict [(lit "url", JStr (lit "grpcs://localhost:7051"));
            (lit "pem", JStr sample_pem)])
  = JDict ((fun kv => (kv.1, fix_value kv.1 kv.2))
             <$> [(lit "url", JStr (lit "grpcs://localhost:7051"));
                  (lit "pem", JStr sample_pem)]).
Proof.
  apply (fix_certificates_loop_is_map
           [(lit "url", JStr (lit "grpcs://localhost:7051"));
            (lit "pem", JStr sample_pem)]).
  apply (bool_decide_unpack _). reflexivity.
Defined.

(** The patch succeeds on the documents in which
    [client.connection.timeout] is a dict, and on no other. *)
Theorem patch_succeeds_exactly doc :
  (exists out, patch doc = Ok out)
  <-> exists t,
      get_path doc (Key <$> [lit "client"; lit "connection"; lit "timeout"])
      = Some (JDict t).
Proof. apply patch_succeeds. Qed.

(** A certificate already on one line is rewritten to itself. *)
Theorem single_line_idempotent s : single_line (single_line s) = single_line s.
Proof. apply single_line_idem. Qed.

(** When the source can be read and parsed, the patch succeeds and the
    output can be written, the run prints its line and the output file
    holds the dump of the patched document. *)
Theorem run_writes_patched_document
    (loads : str -> result json) (dumps : json -> str) fs content doc out :
  read_file fs SOURCE = Ok content ->
  loads content = Ok doc ->
  patch doc = Ok out ->
  can_write fs OUTPUT = true ->
  (run loads dumps fs).2 = Ok (lit "Connection profile has been fixed.")
  /\ data <$> files (run loads dumps fs).1 !! OUTPUT = Some (dumps out).
Proof.
  intros Hread Hloads Hpatch Hw. rewrite run_unfold.
  rewrite <- (read_file_ext fs (cp fs SOURCE BACKUP).1) in Hread
    by apply cp_other, SOURCE_BACKUP.
  rewrite <- (cp_can_write fs SOURCE BACKUP) in Hw by apply OUTPUT_BACKUP.
  unfold mutate_and_write, load_and_patch. rewrite Hread. cbn [bind].
  rewrite Hloads. cbn [bind]. rewrite Hpatch.
  destruct (write_file_can_write _ OUTPUT (dumps out) Hw) as (fs' & E).
  rewrite E. simpl. split; [done|].
  apply write_file_Ok in E as (_ & f & -> & <-). by rewrite lookup_insert_eq.
Qed.

Lemma run_writes_patched_document_witness :
  (run sample_loads sample_dumps fs_backup_read_only).2
  = Ok (lit "Connection profile has been fixed.")
  /\ data <$> files (run sample_loads sample_dumps fs_backup_read_only).1 !! OUTPUT
     = Some (sample_dumps minimal_profile_patched).
Proof.
  apply (run_writes_patched_document sample_loads sample_dumps fs_backup_read_only
           minimal_text minimal_profile minimal_profile_patched); reflexivity.
Defined.

(** ** The run: what it needs, what it touches, running it again *)

Lemma filesystem_eta fs : Filesystem (files fs) (may_create fs) = fs.
Proof. by destruct fs. Qed.

(** A successful write, in full. *)
Lemma write_file_result fs path text fs' :
  write_file fs path text = Ok fs' ->
  exists r,
    fs' = Filesystem (<[path := File text r true]> (files fs)) (may_create fs).
Proof.
  unfold write_file. destruct (files fs !! path) as [f|].
  - destruct (writable f); [|done]. intros [= <-]. by eexists.
  - destruct (may_create fs path); [|done]. intros [= <-]. by eexists.
Qed.

(** Writing the same text again changes nothing. *)
Lemma write_file_again fs path text fs' :
  write_file fs path text = Ok fs' -> write_file fs' path text = Ok fs'.
Proof.
  intros (r & ->)%write_file_result. unfold write_file. simpl.
  rewrite lookup_insert_eq. simpl. by rewrite insert_insert_eq.
Qed.

Lemma write_file_other fs path text fs' path' :
  write_file fs path text = Ok fs' -> path' <> path ->
  files fs' !! path' = files fs !! path' /\ may_create fs' = may_create fs.
Proof.
  intros (r & ->)%write_file_result Hne. simpl. by rewrite lookup_insert_ne.
Qed.

Lemma write_file_ext fs fs' path text :
  files fs' !! path = files fs !! path -> may_create fs' = may_create fs ->
  (exists fs2, write_file fs path text = Ok fs2) ->
  exists fs2', write_file fs' path text = Ok fs2'.
Proof.
  intros Hf Hm (fs2 & (Hw & _)%write_file_Ok).
  apply write_file_can_write. unfold can_write in *. by rewrite Hf, Hm.
Qed.

Lemma cp_settled fs src dst :
  copy_settled fs src dst -> (cp fs src dst).1 = fs.
Proof.
  intros Hs. unfold cp. destruct (read_file fs src) as [text|] eqn:Hr; [|done].
  destruct (write_file fs dst text) as [fs'|] eqn:Hw; [|done]. simpl.
  pose proof Hw as (Hcan & _)%write_file_Ok.
  destruct (Hs text Hr Hcan) as (r & Hdst).
  unfold write_file in Hw. rewrite Hdst in Hw. simpl in Hw.
  injection Hw as <-. rewrite insert_id by done. apply filesystem_eta.
Qed.

Lemma cp_makes_settled fs src dst :
  src <> dst -> copy_settled (cp fs src dst).1 src dst.
Proof.
  intros Hne text. rewrite (read_file_ext fs) by by apply cp_other.
  intros Hr. unfold cp. rewrite Hr.
  destruct (write_file fs dst text) as [fs'|] eqn:Hw; simpl.
  - apply write_file_result in Hw as (r & ->). simpl. intros _.
    exists r. by rewrite lookup_insert_eq.
  - apply write_file_Err in Hw as [Hw _]. congruence.
Qed.

Lemma copy_settled_ext fs fs' src dst :
  files fs' !! src = files fs !! src -> files fs' !! dst = files fs !! dst ->
  may_create fs' = may_create fs ->
  copy_settled fs src dst -> copy_settled fs' src dst.
Proof.
  intros Hsrc Hdst Hm Hs text. rewrite (read_file_ext fs fs') by done.
  unfold can_write. rewrite Hdst, Hm. apply Hs.
Qed.



(** A run that prints its success line has read the source, parsed it,
    patched the document and written the dump of the patched document to
    the output path, which it could write to before the run. *)
Theorem successful_run_did_every_step
    (loads : str -> result json) (dumps : json -> str) (fs : filesystem) msg :
  (run loads dumps fs).2 = Ok msg ->
  msg = lit "Connection profile has been fixed."
  /\ exists content doc out,
      read_file fs SOURCE = Ok content
      /\ loads content = Ok doc
      /\ patch doc = Ok out
      /\ can_write fs OUTPUT = true
      /\ data <$> files (run loads dumps fs).1 !! OUTPUT = Some (dumps out).
Proof.
  rewrite run_unfold. unfold mutate_and_write, load_and_patch.
  rewrite (read_file_ext fs (cp fs SOURCE BACKUP).1)
    by apply cp_other, SOURCE_BACKUP.
  destruct (read_file fs SOURCE) as [content|] eqn:Hread; [|done]. cbn [bind].
  destruct (loads content) as [doc|] eqn:Hloads; [|done]. cbn [bind].
  destruct (patch doc) as [out|] eqn:Hpatch; [|done].
  destruct (write_file _ OUTPUT (dumps out)) as [fs'|] eqn:Hw; [|done].
  simpl. intros [= <-]. split; [done|]. exists content, doc, out.
  split_and!; [done..| |].
  - apply write_file_Ok in Hw as (Hcan & _).
    by rewrite cp_can_write in Hcan by apply OUTPUT_BACKUP.
  - apply write_file_result in Hw as (r & ->). simpl.
    by rewrite lookup_insert_eq.
Qed.

Lemma successful_run_did_every_step_witness :
  (run sample_loads sample_dumps fs_backup_not_creatable).2
  = Ok (lit "Connection profile has been fixed.")
  /\ exists content doc out,
      read_file fs_backup_not_creatable SOURCE = Ok content
      /\ sample_loads content = Ok doc
      /\ patch doc = Ok out
      /\ can_write fs_backup_not_creatable OUTPUT = true
      /\ data <$> files (run sample_loads sample_dumps fs_backup_not_creatable).1
                  !! OUTPUT
         = Some (sample_dumps out).
Proof.
  split; [reflexivity|].
  apply (successful_run_did_every_step sample_loads sample_dumps
           fs_backup_not_creatable (lit "Connection profile has been fixed.")).
  reflexivity.
Defined.

(** ** Certificates after the repair *)

Module ContainsFacts.
Import Str.

Lemma startswith_app p s :
  startswith p s = true <-> exists b, s = p ++ b.
Proof.
  revert s. induction p as [|c p IH]; intros s; simpl.
  - split; [by exists s|done].
  - destruct s as [|x s]; [split; [done|by intros (b & ?)]|].
    rewrite andb_true_iff, bool_decide_eq_true, IH. split.
    + intros (-> & b & ->). by exists b.
    + intros (b & [= -> ->]). split; [done|by exists b].
Qed.

(** [needle in s] says that [s] is some text, the needle, some text. *)
Lemma contains_app p s :
  contains p s = true <-> exists a b, s = a ++ p ++ b.
Proof.
  induction s as [|x s IH].
  - simpl. rewrite orb_false_r, startswith_app. split.
    + intros (b & ->). by exists [], b.
    + intros (a & b & H). destruct a; [by exists b|done].
  - cbn [contains]. rewrite orb_true_iff, startswith_app, IH. split.
    + intros [(b & ->)|(a & b & ->)]; [by exists [], b|by exists (x :: a), b].
    + intros ([|y a] & b & H).
      * left. by exists b.
      * right. injection H as -> ->. by exists a, b.
Qed.

Lemma lstrip_keeps c p a b :
  is_space c = false ->
  exists a', lstrip (a ++ (c :: p) ++ b) = a' ++ (c :: p) ++ b.
Proof.
  intros Hc. induction a as [|x a IH]; simpl.
  - rewrite Hc. by exists [].
  - destruct (is_space x); [done|]. by exists (x :: a).
Qed.

Lemma rstrip_keeps z p a b :
  is_space z = false ->
  exists b', rstrip (a ++ (p ++ [z]) ++ b) = a ++ (p ++ [z]) ++ b'.
Proof.
  intros Hz. unfold rstrip.
  assert (reverse (a ++ (p ++ [z]) ++ b)
          = reverse b ++ (z :: reverse p) ++ reverse a) as ->.
  { rewrite !reverse_app. simpl. by rewrite <- (assoc_L (++)). }
  destruct (lstrip_keeps z (reverse p) (reverse b) (reverse a) Hz) as (b' & ->).
  exists (reverse b').
  rewrite !reverse_app, reverse_cons, !reverse_involutive.
  by rewrite <- !(assoc_L (++)).
Qed.

(** A needle that neither begins nor ends with whitespace is not cut by
    [strip]. *)
Lemma strip_keeps c p z s :
  is_space c = false -> is_space z = false ->
  contains (c :: p ++ [z]) s = true -> contains (c :: p ++ [z]) (strip s) = true.
Proof.
  intros Hc Hz. rewrite !contains_app. intros (a & b & ->).
  unfold strip.
  destruct (lstrip_keeps c (p ++ [z]) a b Hc) as (a' & ->).
  destruct (rstrip_keeps z (c :: p) a' b Hz) as (b' & Hb).
  exists a', b'. exact Hb.
Qed.

Lemma replace_char_keeps c by_ p s :
  c ∉ p -> contains p s = true -> contains p (replace_char c by_ s) = true.
Proof.
  intros Hp. rewrite !contains_app. intros (a & b & ->).
  exists (replace_char c by_ a), (replace_char c by_ b).
  rewrite !StrFacts.replace_char_app. by rewrite (StrFacts.replace_char_absent c by_ p).
Qed.

Lemma elem_of_lstrip x s : x ∈ lstrip s -> x ∈ s.
Proof.
  induction s as [|c s IH]; simpl; [done|].
  destruct (is_space c); [|done]. intros H. right. auto.
Qed.

Lemma elem_of_strip x s : x ∈ strip s -> x ∈ s.
Proof.
  unfold strip, rstrip. rewrite elem_of_reverse.
  intros H%elem_of_lstrip. rewrite elem_of_reverse in H.
  by apply elem_of_lstrip.
Qed.

(** Replacing a character by a text is undone by no other input, as long
    as the inputs do not hold the first character of the text. *)
Lemma replace_char_inj c b by_ s : forall t,
  b <> c -> b ∉ s -> b ∉ t ->
  replace_char c (b :: by_) s = replace_char c (b :: by_) t -> s = t.
Proof.
  induction s as [|x s IH]; intros [|y t] Hbc Hs Ht;
    rewrite ?StrFacts.replace_char_cons.
  - done.
  - by case_bool_decide.
  - by case_bool_decide.
  - apply not_elem_of_cons in Hs as [Hx Hs].
    apply not_elem_of_cons in Ht as [Hy Ht].
    destruct (decide (x = c)) as [Hxc|Hxc], (decide (y = c)) as [Hyc|Hyc].
    + rewrite (bool_decide_eq_true_2 _ Hxc), (bool_decide_eq_true_2 _ Hyc).
      intros H%app_inv_head. subst. f_equal. by apply IH.
    + rewrite (bool_decide_eq_true_2 _ Hxc), (bool_decide_eq_false_2 _ Hyc).
      simpl. intros [= H _]. congruence.
    + rewrite (bool_decide_eq_false_2 _ Hxc), (bool_decide_eq_true_2 _ Hyc).
      simpl. intros [= H _]. congruence.
    + rewrite (bool_decide_eq_false_2 _ Hxc), (bool_decide_eq_false_2 _ Hyc).
      simpl. intros [= -> H]. f_equal. by apply IH.
Qed.

End ContainsFacts.

Lemma BEGIN_CERTIFICATE_shape :
  exists p,
    BEGIN_CERTIFICATE = 45%N :: p ++ [45%N] /\ NL ∉ BEGIN_CERTIFICATE.
Proof.
  exists (lit "----BEGIN CERTIFICATE----"). split; [reflexivity|].
  apply (bool_decide_unpack _). by vm_compute.
Qed.

(** A certificate stays a certificate: the one-line form of a string with
    the header has the header, so the test of the loop gives the same
    answer on the value the loop has left as on the value it found. *)
Theorem header_survives_rewrite :
  (forall v,
      Str.contains BEGIN_CERTIFICATE v = true ->
      Str.contains BEGIN_CERTIFICATE (single_line v) = true)
  /\ (forall key value,
        is_certificate key (fix_value key value) = is_certificate key value).
Proof.
  assert (forall v,
             Str.contains BEGIN_CERTIFICATE v = true ->
             Str.contains BEGIN_CERTIFICATE (single_line v) = true) as Hkeep.
  { intros v Hv. rewrite single_line_replace.
    destruct BEGIN_CERTIFICATE_shape as (p & Hp & Hnl).
    apply ContainsFacts.replace_char_keeps; [done|].
    rewrite Hp in Hv |- *. by apply ContainsFacts.strip_keeps. }
  split; [done|]. intros key value.
  destruct value; try done; cbn [fix_value].
  destruct (is_certificate key (JStr s)) eqn:Hc; [|done].
  cbn [is_certificate] in Hc |- *.
  apply andb_true_iff in Hc as [-> Hs]. by rewrite (Hkeep _ Hs).
Qed.

Lemma fix_certificates_one_line d p v :
  wf d = true ->
  get_path (fix_certificates d) (p ++ [Key (lit "pem")]) = Some (JStr v) ->
  Str.contains BEGIN_CERTIFICATE v = true ->
  (NL ∉ v) /\ Str.strip v = v.
Proof.
  intros Hwf Hget Hc. rewrite get_path_fix_certificates in Hget by done.
  destruct (get_path d (p ++ [Key (lit "pem")])) as [x|]; [|done].
  simpl in Hget. unfold fix_at in Hget. rewrite last_snoc in Hget.
  injection Hget as Hx.
  destruct x; try done; cbn [fix_value] in Hx.
  destruct (is_certificate (lit "pem") (JStr s)) eqn:E.
  - injection Hx as <-. split; [apply single_line_no_newline|].
    apply StrFacts.trimmed_strip, single_line_trimmed.
  - injection Hx as ->. cbn [is_certificate] in E.
    rewrite Hc, bool_decide_eq_true_2 in E by done. done.
Qed.

(** In the output of a successful patch every certificate under a key
    [pem], at whatever depth, is one line with no whitespace at its ends. *)
Theorem patched_certificates_on_one_line doc out p v :
  wf doc = true -> patch doc = Ok out ->
  get_path out (p ++ [Key (lit "pem")]) = Some (JStr v) ->
  Str.contains BEGIN_CERTIFICATE v = true ->
  (NL ∉ v) /\ Str.strip v = v.
Proof.
  intros Hwf Hpatch Hget Hc.
  pose proof (patch_fields doc out Hwf Hpatch) as (Hwo & _ & _ & _ & Hfix).
  apply (fix_certificates_one_line out p v); [done| |done]. by rewrite Hfix.
Qed.

Lemma patched_certificates_on_one_line_witness :
  exists out v,
    patch sample_profile = Ok out
    /\ get_path out
         ([Key (lit "peers"); Key (lit "peer0.org1.example.com");
           Key (lit "tlsCACerts")] ++ [Key (lit "pem")]) = Some (JStr v)
    /\ (NL ∉ v) /\ Str.strip v = v.
Proof.
  exists (fix_certificates
            (match add_discovery
                     (match fix_organization sample_profile with
                      | Ok cp1 => cp1 | Err _ => JNull end) with
             | Ok cp2 => cp2 | Err _ => JNull end)),
         (single_line sample_pem).
  split; [reflexivity|]. split; [reflexivity|].
  eapply (patched_certificates_on_one_line sample_profile _
            [Key (lit "peers"); Key (lit "peer0.org1.example.com");
             Key (lit "tlsCACerts")]); reflexivity.
Defined.

(** The rewriting loses the whitespace at the ends and nothing else, as
    long as the certificates hold no backslash: two such values with the
    same one-line form are the same once stripped. *)
Theorem single_line_injective_without_backslash v1 v2 :
  BACKSLASH ∉ v1 -> BACKSLASH ∉ v2 ->
  single_line v1 = single_line v2 -> Str.strip v1 = Str.strip v2.
Proof.
  intros H1 H2. rewrite !single_line_replace.
  apply (ContainsFacts.replace_char_inj NL BACKSLASH); [done| |].
  - intros H. by apply H1, ContainsFacts.elem_of_strip.
  - intros H. by apply H2, ContainsFacts.elem_of_strip.
Qed.

Lemma single_line_injective_without_backslash_witness :
  single_line sample_pem = single_line ([NL] ++ sample_pem)
  /\ Str.strip sample_pem = Str.strip ([NL] ++ sample_pem).
Proof.
  split; [vm_compute; reflexivity|].
  apply (single_line_injective_without_backslash sample_pem ([NL] ++ sample_pem));
    [apply (bool_decide_unpack _); vm_compute; reflexivity
    |apply (bool_decide_unpack _); vm_compute; reflexivity
    |vm_compute; reflexivity].
Defined.

(** ** How the edits compose *)

Lemma dict_set_set key v w (d : list (str * json)) :
  dict_set key v (dict_set key w d) = dict_set key v d.
Proof.
  induction d as [|[k x] d IH]; simpl.
  - by rewrite bool_decide_eq_true_2.
  - case_bool_decide as Hk; simpl.
    + by rewrite bool_decide_eq_true_2.
    + by rewrite bool_decide_eq_false_2, IH.
Qed.

(** Two stores under different keys can be swapped when the first key is
    already in the dict. *)
Lemma dict_set_swap k1 k2 v1 v2 (d : list (str * json)) :
  k1 <> k2 -> dict_get k1 d <> None ->
  dict_set k1 v1 (dict_set k2 v2 d) = dict_set k2 v2 (dict_set k1 v1 d).
Proof.
  intros Hne. induction d as [|[k x] d IH]; [done|].
  cbn [dict_get dict_set].
  destruct (decide (k = k1)) as [->|H1].
  - rewrite (bool_decide_eq_true_2 (k1 = k1)) by done.
    rewrite (bool_decide_eq_false_2 (k1 = k2)) by done. intros _.
    cbn [dict_set]. rewrite (bool_decide_eq_true_2 (k1 = k1)) by done.
    by rewrite (bool_decide_eq_false_2 (k1 = k2)) by done.
  - rewrite (bool_decide_eq_false_2 (k = k1)) by done. intros Hin.
    destruct (decide (k = k2)) as [->|H2].
    + rewrite (bool_decide_eq_true_2 (k2 = k2)) by done. cbn [dict_set].
      rewrite (bool_decide_eq_false_2 (k2 = k1)) by done.
      by rewrite (bool_decide_eq_true_2 (k2 = k2)) by done.
    + rewrite (bool_decide_eq_false_2 (k = k2)) by done. cbn [dict_set].
      rewrite (bool_decide_eq_false_2 (k = k1)) by done.
      rewrite (bool_decide_eq_false_2 (k = k2)) by done.
      by rewrite IH.
Qed.

(** The assignments [obj[c][o] = v1] and [obj[c][k]...[l] = v2] with
    [o] and [k] different keys give the same result, or the same
    exception, in either order. *)
Lemma subscript_assign_swap c o k ks l v1 v2 obj :
  o <> k ->
  (obj1 <- subscript_assign obj [c] o v1 ;;
   subscript_assign obj1 (c :: k :: ks) l v2)
  = (obj2 <- subscript_assign obj (c :: k :: ks) l v2 ;;
     subscript_assign obj2 [c] o v1).
Proof.
  intros Hne. cbn [subscript_assign].
  destruct obj as [| | | | | |d]; try done. cbn [getitem bind].
  destruct (dict_get c d) as [x|] eqn:Hc; [|done]. cbn [bind].
  destruct x as [| | | | | |dc]; try done. cbn [setitem getitem bind].
  rewrite dict_get_set_eq. cbn [getitem setitem bind].
  rewrite dict_get_set_ne by done.
  destruct (dict_get k dc) as [xk|] eqn:Hk; [|done]. cbn [bind].
  destruct (subscript_assign xk ks l v2) as [xk'|e]; [|done].
  cbn [getitem setitem bind].
  rewrite dict_get_set_eq. cbn [getitem setitem bind].
  rewrite !dict_set_set.
  by rewrite (dict_set_swap k o xk' v1 dc) by (by rewrite ?Hk).
Qed.

(** The two assignments of the script can be made in either order: the
    document, or the exception, is the same. *)
Theorem assignments_commute doc :
  (cp1 <- fix_organization doc ;; add_discovery cp1)
  = (cp1 <- add_discovery doc ;; fix_organization cp1).
Proof.
  unfold fix_organization, add_discovery. by apply subscript_assign_swap.
Qed.

(** ** The order of the keys *)

Lemma keys_at_cons k p (d : list (str * json)) :
  keys_at (JDict d) (Key k :: p) = dict_get k d ≫= fun x => keys_at x p.
Proof. unfold keys_at. simpl. by destruct (dict_get k d). Qed.

Lemma with_key_present key (d : list (str * json)) x :
  dict_get key d = Some x -> with_key key d.*1 = d.*1.
Proof.
  intros H. unfold with_key. rewrite bool_decide_eq_true_2; [done|].
  apply dict_get_elem in H. apply list_elem_of_fmap. by exists (key, x).
Qed.

(** A successful assignment adds its last key to the dict it stores into,
    at the end and only if it was not there, and leaves the keys of the
    dicts on the way as they were. *)
Lemma subscript_assign_keys keys last v : forall obj obj' q,
  subscript_assign obj keys last v = Ok obj' ->
  q `prefix_of` keys ->
  keys_at obj' (Key <$> q)
  = (if bool_decide (q = keys) then with_key last else id)
      <$> keys_at obj (Key <$> q).
Proof.
  induction keys as [|k keys IH]; intros obj obj' q.
  - cbn [subscript_assign]. intros (d & -> & ->)%setitem_Ok ->%prefix_nil_inv.
    unfold keys_at. simpl. by rewrite dict_set_keys.
  - cbn [subscript_assign].
    intros (inner & (d & -> & Hget)%getitem_Ok
            & (inner' & Hin & Hset)%bind_Ok)%bind_Ok Hq.
    apply setitem_Ok in Hset as (d' & [= <-] & ->).
    destruct q as [|k' q].
    + unfold keys_at. simpl. rewrite dict_set_keys.
      rewrite bool_decide_eq_true_2; [done|].
      apply dict_get_elem in Hget. apply list_elem_of_fmap. by exists (k, inner).
    + pose proof (prefix_cons_inv_1 _ _ _ _ Hq) as ->.
      apply prefix_cons_inv_2 in Hq.
      rewrite !fmap_cons, !keys_at_cons, dict_get_set_eq, Hget. simpl.
      rewrite (IH _ _ _ Hin Hq).
      destruct (decide (q = keys)) as [->|Hne].
      * by rewrite !bool_decide_eq_true_2.
      * rewrite !bool_decide_eq_false_2; [done|congruence|done].
Qed.

Lemma fix_at_keys p x :
  wf x = true ->
  match fix_at p x with JDict d => Some d.*1 | _ => None end
  = match x with JDict d => Some d.*1 | _ => None end.
Proof.
  intros Hwf. destruct (is_container x) eqn:Hc.
  - destruct x as [| | | | |l|d]; try done.
    + by destruct (fix_at_list p l) as (l' & -> & _).
    + by destruct (fix_at_dict p d Hwf) as (d' & -> & ->).
  - assert (is_container (fix_at p x) = false) as Hc'.
    { unfold fix_at. destruct (last p) as [[k|i]|].
      - by rewrite fix_value_is_container.
      - by rewrite fix_certificates_scalar.
      - by rewrite fix_certificates_scalar. }
    destruct (fix_at p x); destruct x; done.
Qed.

Lemma fix_certificates_keys d p :
  wf d = true -> keys_at (fix_certificates d) p = keys_at d p.
Proof.
  intros Hwf. unfold keys_at. rewrite get_path_fix_certificates by done.
  destruct (get_path d p) as [x|] eqn:Hx; [|done]. simpl.
  apply fix_at_keys. exact (wf_get_path _ _ _ Hwf Hx).
Qed.

(** The patch keeps the order of the keys on the way to the fields it
    assigns: the document and [connection] keep their keys; [client] keeps
    its keys and gets [organization] at the end if it had none; [timeout]
    keeps its keys and gets [discover] at the end if it had none. *)
Theorem patch_keeps_key_order doc out :
  wf doc = true -> patch doc = Ok out ->
  keys_at out [] = keys_at doc []
  /\ keys_at out [Key (lit "client")]
     = with_key (lit "organization") <$> keys_at doc [Key (lit "client")]
  /\ keys_at out [Key (lit "client"); Key (lit "connection")]
     = keys_at doc [Key (lit "client"); Key (lit "connection")]
  /\ keys_at out
       [Key (lit "client"); Key (lit "connection"); Key (lit "timeout")]
     = with_key (lit "discover")
         <$> keys_at doc
               [Key (lit "client"); Key (lit "connection"); Key (lit "timeout")].
Proof.
  intros Hwf (cp1 & cp2 & H1 & H2 & ->)%patch_Ok.
  pose proof H1 as (_ & Hframe1 & Hwf1)%subscript_assign_Ok.
  pose proof H2 as (_ & _ & Hwf2)%subscript_assign_Ok.
  assert (wf cp2 = true) as Hw2 by (apply Hwf2; [by apply Hwf1|done]).
  assert (forall q, keys_at (fix_certificates cp2) (Key <$> q)
                    = keys_at cp2 (Key <$> q)) as Hfix
    by (intros q; by apply fix_certificates_keys).
  pose proof (fun q => subscript_assign_keys _ _ _ _ _ q H1) as K1.
  pose proof (fun q => subscript_assign_keys _ _ _ _ _ q H2) as K2.
  assert (forall q, apart ORGANIZATION (Key <$> q) ->
                    keys_at cp1 (Key <$> q) = keys_at doc (Key <$> q)) as F1.
  { intros q Hq. unfold keys_at. by rewrite Hframe1. }
  pose proof (Hfix []) as A0.
  pose proof (Hfix [lit "client"]) as A1.
  pose proof (Hfix [lit "client"; lit "connection"]) as A2.
  pose proof (Hfix [lit "client"; lit "connection"; lit "timeout"]) as A3.
  pose proof (K2 [] (prefix_nil _)) as B0.
  pose proof (K2 [lit "client"] (ltac:(by eexists))) as B1.
  pose proof (K2 [lit "client"; lit "connection"] (ltac:(by eexists))) as B2.
  pose proof (K2 [lit "client"; lit "connection"; lit "timeout"]
                (ltac:(done))) as B3.
  pose proof (K1 [] (prefix_nil _)) as C0.
  pose proof (K1 [lit "client"] (ltac:(done))) as C1.
  assert (apart ORGANIZATION (Key <$> [lit "client"; lit "connection"])) as Hap
    by (split; intros [r Hr]; vm_compute in Hr; discriminate Hr).
  pose proof (F1 [lit "client"; lit "connection"] Hap) as C2.
  pose proof (F1 [lit "client"; lit "connection"; lit "timeout"] timeout_apart)
    as C3.
  rewrite bool_decide_eq_false_2 in B0, B1, B2, C0 by done.
  rewrite bool_decide_eq_true_2 in B3, C1 by done.
  cbn [fmap list_fmap] in A0, A1, A2, A3, B0, B1, B2, B3, C0, C1, C2, C3.
  rewrite A0, A1, A2, A3, B0, B1, B2, B3, C0, C1, C2, C3.
  rewrite !option_fmap_id. done.
Qed.

Lemma patch_keeps_key_order_witness :
  exists out,
    patch sample_profile = Ok out
    /\ keys_at out [Key (lit "client")]
       = with_key (lit "organization")
           <$> keys_at sample_profile [Key (lit "client")]
    /\ keys_at out [Key (lit "client")]
       = Some [lit "organization"; lit "connection"].
Proof.
  exists (fix_certificates
            (match add_discovery
                     (match fix_organization sample_profile with
                      | Ok cp1 => cp1 | Err _ => JNull end) with
             | Ok cp2 => cp2 | Err _ => JNull end)).
  split; [reflexivity|]. split; [|reflexivity].
  apply (proj1 (proj2 (patch_keeps_key_order sample_profile _ eq_refl eq_refl))).
Defined.

(** * The run and the files its paths name *)


Section RunAtFacts.
Variable loads : str -> result json.
Variable dumps : json -> str.
Variables src bak out : string.

Lemma run_at_unfold fs :
  run_at loads dumps src bak out fs
  = mutate_and_write_at loads dumps src out (copy_at src bak fs).1.
Proof. unfold run_at. by destruct (copy_at src bak fs). Qed.



Lemma copy_at_distinct fs : src <> bak -> copy_at src bak fs = cp fs src bak.
Proof. intros Hne. unfold copy_at. by rewrite bool_decide_eq_false_2. Qed.

(** The part after the copy writes to the output file only. *)
Lemma mutate_and_write_at_other fs name :
  name <> out ->
  files (mutate_and_write_at loads dumps src out fs).1 !! name = files fs !! name.
Proof.
  intros Hne. unfold mutate_and_write_at.
  destruct (load_and_patch_at loads src fs) as [doc|]; [|done].
  destruct (write_file fs out (dumps doc)) as [fs'|] eqn:E; [|done].
  exact (proj1 (write_file_other _ _ _ _ name E Hne)).
Qed.

Lemma mutate_and_write_at_may_create fs :
  may_create (mutate_and_write_at loads dumps src out fs).1 = may_create fs.
Proof.
  unfold mutate_and_write_at.
  destruct (load_and_patch_at loads src fs) as [doc|]; [|done].
  destruct (write_file fs out (dumps doc)) as [fs'|] eqn:Hw; [|done].
  by apply write_file_result in Hw as (r & ->).
Qed.

Lemma load_and_patch_at_ext fs fs' :
  files fs' !! src = files fs !! src ->
  load_and_patch_at loads src fs' = load_and_patch_at loads src fs.
Proof.
  intros H. unfold load_and_patch_at. by rewrite (read_file_ext _ _ _ H).
Qed.


(** When the output is another file than the source, doing the part after
    the copy again changes nothing. *)
Lemma mutate_and_write_at_again fs :
  src <> out ->
  mutate_and_write_at loads dumps src out
    (mutate_and_write_at loads dumps src out fs).1
  = mutate_and_write_at loads dumps src out fs.
Proof.
  intros Hne. unfold mutate_and_write_at at 2 3.
  destruct (load_and_patch_at loads src fs) as [doc|e] eqn:Hl.
  - destruct (write_file fs out (dumps doc)) as [fs'|e] eqn:Hw; simpl.
    + unfold mutate_and_write_at.
      rewrite (load_and_patch_at_ext fs fs'), Hl
        by exact (proj1 (write_file_other _ _ _ _ src Hw Hne)).
      by rewrite (write_file_again _ _ _ _ Hw).
    + unfold mutate_and_write_at. by rewrite Hl, Hw.
  - simpl. unfold mutate_and_write_at. by rewrite Hl.
Qed.

Lemma run_at_again fs :
  src <> bak -> src <> out -> bak <> out ->
  run_at loads dumps src bak out (run_at loads dumps src bak out fs).1
  = run_at loads dumps src bak out fs.
Proof.
  intros Hsb Hso Hbo. rewrite (run_at_unfold fs).
  rewrite copy_at_distinct by done.
  set (fs1 := (cp fs src bak).1).
  rewrite run_at_unfold, copy_at_distinct by done.
  assert ((cp (mutate_and_write_at loads dumps src out fs1).1 src bak).1
          = (mutate_and_write_at loads dumps src out fs1).1) as ->.
  { apply cp_settled. apply (copy_settled_ext fs1).
    - by apply mutate_and_write_at_other.
    - by apply mutate_and_write_at_other.
    - apply mutate_and_write_at_may_create.
    - by apply cp_makes_settled. }
  by apply mutate_and_write_at_again.
Qed.

End RunAtFacts.

(** Where every path names the file of its own name, the run with
    resolution is the run. *)
Lemma run_resolved_plain loads dumps fs :
  run_resolved resolve_plain loads dumps fs = run loads dumps fs.
Proof.
  unfold run_resolved, resolve_plain, run_at, run, copy_at.
  rewrite bool_decide_eq_false_2 by apply SOURCE_BACKUP.
  by destruct (cp fs SOURCE BACKUP).
Qed.



(** Started in the root directory the script overwrites its input: the
    output path names the source file.  The backup, made first, holds the
    text the source had. *)
Example run_at_root_overwrites_source :
  resolve_at_root OUTPUT = resolve_at_root SOURCE
  /\ data <$> files fs_at_root !! resolve_at_root SOURCE = Some minimal_text
  /\ (run_resolved resolve_at_root sample_loads sample_dumps fs_at_root).2
     = Ok (lit "Connection profile has been fixed.")
  /\ data <$> files (run_resolved resolve_at_root sample_loads sample_dumps
                       fs_at_root).1 !! resolve_at_root SOURCE
     = Some minimal_text_patched
  /\ data <$> files (run_resolved resolve_at_root sample_loads sample_dumps
                       fs_at_root).1 !! resolve_at_root BACKUP
     = Some minimal_text.
Proof. split_and!; vm_compute; reflexivity. Qed.


(** Where the three paths name three different files, running the script
    again on the files a run has left changes no file and ends as the first
    run did. *)
Theorem rerun_changes_nothing_on_distinct_files
    (resolve : string -> string)
    (loads : str -> result json) (dumps : json -> str) (fs : filesystem) :
  resolve SOURCE <> resolve BACKUP ->
  resolve SOURCE <> resolve OUTPUT ->
  resolve BACKUP <> resolve OUTPUT ->
  run_resolved resolve loads dumps (run_resolved resolve loads dumps fs).1
  = run_resolved resolve loads dumps fs.
Proof. intros Hsb Hso Hbo. unfold run_resolved. by apply run_at_again. Qed.

Lemma rerun_changes_nothing_on_distinct_files_witness :
  run_resolved resolve_plain sample_loads sample_dumps
    (run_resolved resolve_plain sample_loads sample_dumps fs_backup_read_only).1
  = run_resolved resolve_plain sample_loads sample_dumps fs_backup_read_only.
Proof.
  apply (rerun_changes_nothing_on_distinct_files resolve_plain
           sample_loads sample_dumps fs_backup_read_only).
  - apply SOURCE_BACKUP.
  - apply SOURCE_OUTPUT.
  - intros H. symmetry in H. exact (OUTPUT_BACKUP H).
Defined.
